(* Shallow embedding of the piece-exchange engine of lvbealr/BitTorrent
   (torrent/p2p.go, torrent/tracker.go, torrent/utils.go, torrent/parse.go).

   Conventions:
   - a Go byte is a Z in [0, 256); a []byte is a list Z;
   - a Go slice that may be nil is an option (None = nil);
   - Go integer division and remainder truncate toward zero: Z.quot, Z.rem;
   - code that can fail returns a [result] value. *)

From Stdlib Require Import List ZArith Lia Bool String Ascii Relations Permutation.
Import ListNotations.
Open Scope Z_scope.

(* ------------------------------------------------------------------------- *)
(** * Go runtime helpers *)

Inductive error :=
| ErrNoConnection
| ErrReadLength
| ErrTooLarge (length : Z)
| ErrReadBody
| ErrHandshakeProtocol
| ErrHandshakeInfoHash
| ErrDownloadIncomplete (written total : Z).

Inductive result (A : Type) :=
| Ok (a : A)
| Err (e : error).
Arguments Ok {A} a.
Arguments Err {A} e.

(** [s[k]] on a slice: [None] is the run-time panic "index out of range". *)
Definition go_index (s : list Z) (k : Z) : option Z :=
  if k <? 0 then None else nth_error s (Z.to_nat k).

(** big-endian decoding of a byte list (binary.BigEndian.Uint32 etc.) *)
Fixpoint be_decode_acc (acc : Z) (bs : list Z) : Z :=
  match bs with
  | [] => acc
  | b :: rest => be_decode_acc (acc * 256 + b) rest
  end.
Definition be_decode (bs : list Z) : Z := be_decode_acc 0 bs.

(** big-endian encoding of [v] on [n] bytes (binary.BigEndian.PutUintN):
    byte k is [v >> (8 * (n - 1 - k))] truncated to 8 bits. *)
Fixpoint be_encode (n : nat) (v : Z) : list Z :=
  match n with
  | O => []
  | S m => Z.land (Z.shiftr v (8 * Z.of_nat m)) 255 :: be_encode m v
  end.

(* ------------------------------------------------------------------------- *)
(** * HasPiece (p2p.go:610-623) *)

(** The Go function, with the slice access [bitfield[byteIndex]] kept as a
    possibly-panicking access: [None] means the program panicked. *)
Definition HasPiece (bitfield : option (list Z)) (index : Z) : option bool :=
  match bitfield with
  | None => Some false
  | Some bf =>
      let byteIndex := Z.quot index 8 in
      let bitIndex := Z.rem index 8 in
      if byteIndex >=? Z.of_nat (List.length bf) then Some false
      else
        match go_index bf byteIndex with
        | None => None
        | Some b => Some (Z.land (Z.shiftr b (7 - bitIndex)) 1 =? 1)
        end
  end.

(* ------------------------------------------------------------------------- *)
(** * Messages and ReceiveMessage (p2p.go:221-342) *)

(** MessageID constants *)
Definition Choke : Z := 0.
Definition Unchoke : Z := 1.
Definition Interested : Z := 2.
Definition NotInterested : Z := 3.
Definition Have : Z := 4.
Definition Bitfield : Z := 5.
Definition Request : Z := 6.
Definition Piece : Z := 7.
Definition Cancel : Z := 8.

Record Message := mkMessage { ID : Z; Payload : list Z }.

(** [&Message{}]: the zero value, returned for a keep-alive *)
Definition empty_message : Message := mkMessage 0 [].

Definition max_message_length : Z := Z.shiftl 1 20.

(** [peer.Connection] is the byte stream still to be read, or [None] when
    the connection is nil.  The result carries the rest of the stream. *)
Definition ReceiveMessage (conn : option (list Z)) : result (Message * list Z) :=
  match conn with
  | None => Err ErrNoConnection
  | Some s =>
      (* binary.Read(peer.Connection, binary.BigEndian, &length) *)
      if (List.length s <? 4)%nat then Err ErrReadLength
      else
        let length := be_decode (firstn 4 s) in
        let s1 := skipn 4 s in
        if length =? 0 then Ok (empty_message, s1)
        else if length >? max_message_length then Err (ErrTooLarge length)
        else
          (* io.ReadFull(peer.Connection, buf) *)
          if (List.length s1 <? Z.to_nat length)%nat then Err ErrReadBody
          else
            let buf := firstn (Z.to_nat length) s1 in
            match buf with
            | [] => Err ErrReadBody
            | b0 :: rest => Ok (mkMessage b0 rest, skipn (Z.to_nat length) s1)
            end
  end.

(* ------------------------------------------------------------------------- *)
(** * Torrent metadata and piece lengths (torrent.go, utils.go:109-121,
      p2p.go:185-202 and 487-495) *)

Record TorrentFileEntry := mkEntry { Entry_Length : Z }.

(** the fields of TorrentInfo the engine reads; [Info_Length] is the
    bencode key "length", present in single-file mode only (zero otherwise) *)
Record TorrentInfo := mkInfo {
  Info_PieceLength : Z;
  Info_Pieces : list Z;
  Info_Length : Z;
  Info_Files : list TorrentFileEntry
}.

Definition two64 : Z := 2 ^ 64.

(** GetTotalSize: uint64 arithmetic, so every addition wraps *)
Definition GetTotalSize (info : TorrentInfo) : Z :=
  match Info_Files info with
  | [] => Info_Length info mod two64
  | files =>
      fold_left (fun total f => (total + Entry_Length f mod two64) mod two64) files 0
  end.

(** InitializePieces: [NumPieces = len(pieces) / 20] *)
Definition NumPieces (info : TorrentInfo) : Z :=
  Z.of_nat (List.length (Info_Pieces info)) / 20.

(** the length requested for [pieceIndex] in DownloadFromPeer *)
Definition piece_length_of (info : TorrentInfo) (pieceIndex : Z) : Z :=
  let PieceLength := Info_PieceLength info in
  if pieceIndex =? NumPieces info - 1 then
    let pieceLength := Z.rem (Info_Length info) PieceLength in
    if pieceLength =? 0 then PieceLength else pieceLength
  else PieceLength.

(** The piece length rule as the spec words it (section 4.5), for comparison *)
Definition spec_piece_length (info : TorrentInfo) (index : Z) : Z :=
  if index <? NumPieces info - 1 then Info_PieceLength info
  else GetTotalSize info - (NumPieces info - 1) * Info_PieceLength info.

(* ------------------------------------------------------------------------- *)
(** * UDP announce request (tracker.go:126-160) *)

(** writing [src] into [buf] from position [off] (a PutUintN on
    [buf[off:off+len(src)]] or a full copy) *)
Definition put_at (off : nat) (src buf : list Z) : list Z :=
  firstn off buf ++ src ++ skipn (off + List.length src) buf.

(** [copy(buf[lo:hi], src)] copies [min(hi - lo, len(src))] bytes *)
Definition copy_into (lo hi : nat) (src buf : list Z) : list Z :=
  put_at lo (firstn (hi - lo) src) buf.

(** [buf[lo:hi]] *)
Definition slice (lo hi : nat) (buf : list Z) : list Z :=
  firstn (hi - lo) (skipn lo buf).

Definition CreateAnnounceRequest
    (connectionID action transactionID : Z) (infoHash peerID : list Z)
    (downloaded left uploaded event IP key num_want port : Z) : list Z :=
  let announceReq := repeat 0 98 in
  let announceReq := put_at 0 (be_encode 8 connectionID) announceReq in
  let announceReq := put_at 8 (be_encode 4 action) announceReq in
  let announceReq := put_at 12 (be_encode 4 transactionID) announceReq in
  let announceReq := copy_into 16 36 infoHash announceReq in
  let announceReq := copy_into 36 56 peerID announceReq in
  let announceReq := put_at 56 (be_encode 8 downloaded) announceReq in
  let announceReq := put_at 64 (be_encode 8 left) announceReq in
  let announceReq := put_at 72 (be_encode 8 uploaded) announceReq in
  let announceReq := put_at 80 (be_encode 4 event) announceReq in
  let announceReq := put_at 88 (be_encode 4 key) announceReq in
  (* uint32(num_want): two's-complement reinterpretation *)
  let announceReq := put_at 92 (be_encode 4 (num_want mod 2 ^ 32)) announceReq in
  put_at 96 (be_encode 2 port) announceReq.

(* ------------------------------------------------------------------------- *)
(** * Handshake validation (p2p.go:31-37 and 94-129) *)

Record Handshake := mkHandshake {
  ProtocolNameLength : Z;
  Protocol : list Z;   (* [19]byte *)
  Reserved : list Z;   (* [8]byte *)
  HS_InfoHash : list Z;   (* [20]byte *)
  HS_PeerID : list Z      (* [20]byte *)
}.

(** binary.Read of a Handshake: 68 bytes, or an error *)
Definition read_handshake (s : list Z) : option (Handshake * list Z) :=
  if (List.length s <? 68)%nat then None
  else Some (mkHandshake (hd 0 s) (slice 1 20 s) (slice 20 28 s)
                         (slice 28 48 s) (slice 48 68 s), skipn 68 s).

Definition bytes_of_string (str : string) : list Z :=
  map (fun c => Z.of_nat (nat_of_ascii c)) (list_ascii_of_string str).

Fixpoint bytes_Equal (a b : list Z) : bool :=
  match a, b with
  | [], [] => true
  | x :: a', y :: b' => (x =? y) && bytes_Equal a' b'
  | _, _ => false
  end.

Definition protocol : list Z := bytes_of_string "BitTorrent protocol".

Record PeerEntry := mkPeerEntry { PE_IP : string; PE_Port : Z; PE_PeerID : list Z;
                                  PE_Choked : bool; PE_Bitfield : option (list Z) }.

(** what PerformHandshake leaves behind: the shared peer list and whether
    it closed the connection *)
Record HandshakeState := mkHSState { HS_Peers : list PeerEntry; HS_Closed : bool }.

Definition close_conn (st : HandshakeState) : HandshakeState :=
  mkHSState (HS_Peers st) true.

(** PerformHandshake from the read of the reply on (p2p.go:94-129) *)
Definition PerformHandshake_reply (torrentInfoHash : list Z) (ip : string) (port : Z)
    (reply : list Z) (st : HandshakeState) : result (list Z) * HandshakeState :=
  match read_handshake reply with
  | None => (Err ErrReadBody, close_conn st)
  | Some (response, _) =>
      if negb (ProtocolNameLength response =? 19)
         || negb (bytes_Equal (Protocol response) protocol)
      then (Err ErrHandshakeProtocol, close_conn st)
      else if negb (bytes_Equal (HS_InfoHash response) torrentInfoHash)
      then (Err ErrHandshakeInfoHash, close_conn st)
      else
        let remotePeerID := HS_PeerID response in
        (Ok remotePeerID,
         mkHSState (HS_Peers st ++ [mkPeerEntry ip port remotePeerID true None])
                   (HS_Closed st))
  end.

(* ------------------------------------------------------------------------- *)
(** * HTTP announce query (tracker.go:53-63, with net/url's QueryEscape and
      Values.Encode) *)

(** net/url shouldEscape(c, encodeQueryComponent) *)
Definition shouldEscape (c : Z) : bool :=
  if ((97 <=? c) && (c <=? 122)) || ((65 <=? c) && (c <=? 90))
     || ((48 <=? c) && (c <=? 57)) then false
  else if (c =? 45) || (c =? 95) || (c =? 46) || (c =? 126) then false
  else true.

Definition upperhex (d : Z) : Z := if d <? 10 then 48 + d else 55 + d.

(** net/url QueryEscape: a space becomes '+', an escaped byte becomes %XX *)
Fixpoint QueryEscape (s : list Z) : list Z :=
  match s with
  | [] => []
  | c :: rest =>
      (if c =? 32 then [43]
       else if shouldEscape c then [37; upperhex (Z.shiftr c 4); upperhex (Z.land c 15)]
       else [c]) ++ QueryEscape rest
  end.

(** url.Values as the (key, value) pairs in the order of the Add calls *)
Definition Values := list (list Z * list Z).

Fixpoint bytes_ltb (a b : list Z) : bool :=
  match a, b with
  | _, [] => false
  | [], _ :: _ => true
  | x :: a', y :: b' => (x <? y) || ((x =? y) && bytes_ltb a' b')
  end.

(** sort.Strings on the keys (an insertion sort; the keys here are distinct) *)
Fixpoint insert_by_key (p : list Z * list Z) (l : Values) : Values :=
  match l with
  | [] => [p]
  | q :: l' => if bytes_ltb (fst q) (fst p) then q :: insert_by_key p l' else p :: l
  end.
Definition sort_by_key (l : Values) : Values := fold_right insert_by_key [] l.

(** Values.Encode: [k=v] pairs joined by '&', keys escaped and sorted *)
Definition Values_Encode (v : Values) : list Z :=
  fold_left
    (fun buf kv =>
       (if (0 <? List.length buf)%nat then buf ++ [38] else buf)
         ++ QueryEscape (fst kv) ++ [61] ++ QueryEscape (snd kv))
    (sort_by_key v) [].

(** fmt.Sprintf("%d", n) for 0 <= n < 2^64 *)
Fixpoint decimal_aux (fuel : nat) (n : Z) (acc : list Z) : list Z :=
  match fuel with
  | O => acc
  | S f =>
      let acc' := (48 + n mod 10) :: acc in
      if n / 10 =? 0 then acc' else decimal_aux f (n / 10) acc'
  end.
Definition decimal (n : Z) : list Z := decimal_aux 20 n [].

(** the query string [u.RawQuery] of SendHTTPTrackerRequest *)
Definition http_announce_query (infoHash peerID : list Z) (left : Z) : list Z :=
  let params : Values :=
    [(bytes_of_string "info_hash", QueryEscape infoHash);
     (bytes_of_string "peer_id", peerID);
     (bytes_of_string "port", bytes_of_string "6881");
     (bytes_of_string "uploaded", bytes_of_string "0");
     (bytes_of_string "downloaded", bytes_of_string "0");
     (bytes_of_string "left", decimal left);
     (bytes_of_string "compact", bytes_of_string "1");
     (bytes_of_string "event", bytes_of_string "started")] in
  Values_Encode params.

Example query_escape_ex :
  QueryEscape (bytes_of_string "a b%/") = bytes_of_string "a+b%25%2F".
Proof. reflexivity. Qed.

Example query_ex :
  http_announce_query [0] (bytes_of_string "-GT0001-") 48 =
  bytes_of_string
    "compact=1&downloaded=0&event=started&info_hash=%2500&left=48&peer_id=-GT0001-&port=6881&uploaded=0".
Proof. reflexivity. Qed.

(* ------------------------------------------------------------------------- *)
(** * Peer sessions, the piece scheduler and the writer
      (DownloadFromPeer p2p.go:374-594, StartDownload p2p.go:638-803) *)

Record PieceResult := mkPieceResult { PR_Index : nat; PR_Data : list Z }.

Record FileInfo := mkFileInfo { FI_Path : string; FI_Length : Z; FI_Offset : Z }.

(** [s[i] = v] on a slice whose index is known to be in range *)
Fixpoint list_set {A} (l : list A) (i : nat) (v : A) : list A :=
  match l, i with
  | [], _ => []
  | _ :: l', O => v :: l'
  | x :: l', S i' => x :: list_set l' i' v
  end.

(** the body of one iteration of the receive loop waiting for a block
    (p2p.go:538-568): what the session does with one received message *)
Inductive BlockOutcome :=
| BlockData (block : list Z)   (* [data = append(data, msg.Payload[8:]...)] *)
| BlockAbort                   (* short payload: reset the piece, return *)
| BlockChoke                   (* Choke: reset the piece, keep waiting *)
| BlockIgnore.                 (* any other ID: keep waiting *)

Definition block_step (msg : Message) : BlockOutcome :=
  if ID msg =? Piece then
    if (List.length (Payload msg) <? 8)%nat then BlockAbort
    else BlockData (skipn 8 (Payload msg))
  else if ID msg =? Choke then BlockChoke
  else BlockIgnore.

Definition blockSize : Z := Z.shiftl 1 14.

Inductive Phase :=
| Starting                      (* first receive loop, p2p.go:401-431 *)
| Selecting                     (* head of the outer loop, p2p.go:437-485 *)
| Requesting (pieceIndex : nat) (offset : Z) (data : list Z)
                                (* about to send the Request, p2p.go:499-520 *)
| Waiting (pieceIndex : nat) (offset : Z) (data : list Z)
                                (* receive loop for the block, p2p.go:522-571 *)
| Exited.

Record Session := mkSession {
  S_Bitfield : option (list Z);
  S_Choked : bool;
  S_Phase : Phase
}.

(** what the environment does to a session: a message returned by
    ReceiveMessage, a failure of ReceiveMessage, the outcome of SendMessage,
    or the session reaching the scan under DownloadMutex *)
Inductive Event :=
| EvRecv (msg : Message)
| EvRecvFail
| EvSendOk
| EvSendFail
| EvSelect.

(** the scan of p2p.go:471-478: the lowest [i] with [!Downloaded[i]] and
    [HasPiece(bitfield, i)] *)
Fixpoint select_from (i : nat) (Downloaded : list bool) (bf : option (list Z))
    : option nat :=
  match Downloaded with
  | [] => None
  | d :: rest =>
      if negb d && (match HasPiece bf (Z.of_nat i) with Some b => b | None => false end)
      then Some i
      else select_from (S i) rest bf
  end.

Section Engine.

Variable info : TorrentInfo.
(** crypto/sha1.Sum *)
Variable sha1 : list Z -> list Z.

(** InitializePieces: [PieceHashes[i] = pieces[i*20:(i+1)*20]] *)
Definition PieceHash (i : nat) : list Z := slice (i * 20) ((i + 1) * 20) (Info_Pieces info).

(** after a block: the next iteration of the offset loop, or the hash check
    of p2p.go:574-592.  Returns the new Downloaded vector, the phase and
    what is sent on pieceChan. *)
Definition next_block (Downloaded : list bool) (pieceIndex : nat) (offset : Z)
    (data : list Z) : list bool * Phase * list PieceResult :=
  if offset <? piece_length_of info (Z.of_nat pieceIndex) then
    (Downloaded, Requesting pieceIndex offset data, [])
  else if bytes_Equal (sha1 data) (PieceHash pieceIndex) then
    (Downloaded, Selecting, [mkPieceResult pieceIndex data])
  else (list_set Downloaded pieceIndex false, Selecting, []).

Definition session_step (Downloaded : list bool) (s : Session) (ev : Event)
    : option (list bool * Session * list PieceResult) :=
  let bf := S_Bitfield s in
  match S_Phase s, ev with
  (* p2p.go:386-431 *)
  | Starting, EvSendFail => Some (Downloaded, mkSession bf (S_Choked s) Exited, [])
  | Starting, EvRecvFail => Some (Downloaded, mkSession bf (S_Choked s) Exited, [])
  | Starting, EvRecv msg =>
      let bf' := if ID msg =? Bitfield then Some (Payload msg) else bf in
      let ch' := if ID msg =? Unchoke then false
                 else if ID msg =? Choke then true else S_Choked s in
      let ph' := match bf' with
                 | Some _ => if negb ch' then Selecting else Starting
                 | None => Starting
                 end in
      Some (Downloaded, mkSession bf' ch' ph', [])
  (* p2p.go:438-466: waiting for Unchoke *)
  | Selecting, EvRecvFail =>
      if S_Choked s then Some (Downloaded, mkSession bf true Exited, []) else None
  | Selecting, EvRecv msg =>
      if S_Choked s then
        (* Unchoke clears the flag; Choke sets it, and it is already set *)
        let ch' := if ID msg =? Unchoke then false else true in
        Some (Downloaded, mkSession bf ch' Selecting, [])
      else None
  (* p2p.go:468-497 *)
  | Selecting, EvSelect =>
      if S_Choked s then None
      else
        match select_from 0 Downloaded bf with
        | None => Some (Downloaded, mkSession bf false Exited, [])
        | Some i =>
            let '(D', ph', out) := next_block (list_set Downloaded i true) i 0 [] in
            Some (D', mkSession bf false ph', out)
        end
  (* p2p.go:511-520 *)
  | Requesting i off data, EvSendOk =>
      Some (Downloaded, mkSession bf (S_Choked s) (Waiting i off data), [])
  | Requesting i off data, EvSendFail =>
      Some (list_set Downloaded i false, mkSession bf (S_Choked s) Exited, [])
  (* p2p.go:522-571 *)
  | Waiting i off data, EvRecvFail =>
      Some (list_set Downloaded i false, mkSession bf (S_Choked s) Exited, [])
  | Waiting i off data, EvRecv msg =>
      match block_step msg with
      | BlockData block =>
          let '(D', ph', out) := next_block Downloaded i (off + blockSize) (data ++ block) in
          Some (D', mkSession bf (S_Choked s) ph', out)
      | BlockAbort => Some (list_set Downloaded i false, mkSession bf (S_Choked s) Exited, [])
      | BlockChoke => Some (list_set Downloaded i false, mkSession bf true (Waiting i off data), [])
      | BlockIgnore => Some (Downloaded, s, [])
      end
  | _, _ => None
  end.

End Engine.

(** the writer loop of StartDownload (p2p.go:725-764); the map [completed]
    is the list of its keys.  [WriteAt f off chunk] is true when
    [file.Handle.WriteAt(chunk, off)] returns an error. *)
Section Writer.

Variable info : TorrentInfo.
Variable Files : list FileInfo.
Variable WriteAt : FileInfo -> Z -> list Z -> bool.

Definition write_chunks (Downloaded : list bool) (piece : PieceResult) : list bool :=
  let pieceStart := Z.of_nat (PR_Index piece) * Info_PieceLength info in
  let pieceEnd := pieceStart + Z.of_nat (List.length (PR_Data piece)) in
  fold_left
    (fun D file =>
       let fileStart := FI_Offset file in
       let fileEnd := FI_Offset file + FI_Length file in
       let start := Z.max pieceStart fileStart in
       let end_ := Z.min pieceEnd fileEnd in
       if start >=? end_ then D
       else
         let chunk := slice (Z.to_nat (start - pieceStart)) (Z.to_nat (end_ - pieceStart))
                            (PR_Data piece) in
         if WriteAt file (start - FI_Offset file) chunk
         then list_set D (PR_Index piece) false
         else D)
    Files Downloaded.

(** whether writing [piece] into [file] is attempted and fails *)
Definition chunk_write_fails (piece : PieceResult) (file : FileInfo) : bool :=
  let pieceStart := Z.of_nat (PR_Index piece) * Info_PieceLength info in
  let pieceEnd := pieceStart + Z.of_nat (List.length (PR_Data piece)) in
  let start := Z.max pieceStart (FI_Offset file) in
  let end_ := Z.min pieceEnd (FI_Offset file + FI_Length file) in
  if start >=? end_ then false
  else WriteAt file (start - FI_Offset file)
         (slice (Z.to_nat (start - pieceStart)) (Z.to_nat (end_ - pieceStart))
                (PR_Data piece)).

Definition write_piece (st : list bool * list nat) (piece : PieceResult)
    : list bool * list nat :=
  let '(Downloaded, completed) := st in
  if existsb (Nat.eqb (PR_Index piece)) completed then (Downloaded, completed)
  else (write_chunks Downloaded piece, PR_Index piece :: completed).

(** the loop over pieceChan, then the final check (p2p.go:798-802) *)
Definition StartDownload_writer (Downloaded : list bool) (pieces : list PieceResult)
    : result unit * list bool * list nat :=
  let '(D', completed) := fold_left write_piece pieces (Downloaded, []) in
  (if negb (Z.of_nat (List.length completed) =? NumPieces info)
   then Err (ErrDownloadIncomplete (Z.of_nat (List.length completed)) (NumPieces info))
   else Ok tt, D', completed).

End Writer.

(** the whole download: the shared Downloaded vector, the sessions, the
    buffered pieceChan and the writer's [completed] keys *)
Record Swarm := mkSwarm {
  Sw_Downloaded : list bool;
  Sw_Sessions : list Session;
  Sw_Chan : list PieceResult;
  Sw_Completed : list nat
}.

Section Swarm.

Variable info : TorrentInfo.
Variable sha1 : list Z -> list Z.
Variable Files : list FileInfo.

Inductive swarm_step : Swarm -> Swarm -> Prop :=
| StepSession sw k s ev D' s' out :
    nth_error (Sw_Sessions sw) k = Some s ->
    session_step info sha1 (Sw_Downloaded sw) s ev = Some (D', s', out) ->
    swarm_step sw (mkSwarm D' (list_set (Sw_Sessions sw) k s')
                           (Sw_Chan sw ++ out) (Sw_Completed sw))
| StepWriter sw WriteAt p rest :
    Sw_Chan sw = p :: rest ->
    swarm_step sw
      (let '(D', c') := write_piece info Files WriteAt
                          (Sw_Downloaded sw, Sw_Completed sw) p in
       mkSwarm D' (Sw_Sessions sw) rest c').

(** InitializePieces and the peers as PerformHandshake adds them
    ([Choked: true, Bitfield: nil]) *)
Definition init_swarm (npeers : nat) : Swarm :=
  mkSwarm (repeat false (Z.to_nat (NumPieces info)))
          (repeat (mkSession None true Starting) npeers) [] [].

Definition reachable (npeers : nat) : Swarm -> Prop :=
  clos_refl_trans_1n Swarm swarm_step (init_swarm npeers).

(** executable traces, to exhibit reachable states *)
Inductive Action :=
| ASession (k : nat) (ev : Event)
| AWriter (fails : bool).

Definition run_action (sw : Swarm) (a : Action) : option Swarm :=
  match a with
  | ASession k ev =>
      match nth_error (Sw_Sessions sw) k with
      | None => None
      | Some s =>
          match session_step info sha1 (Sw_Downloaded sw) s ev with
          | None => None
          | Some (D', s', out) =>
              Some (mkSwarm D' (list_set (Sw_Sessions sw) k s')
                            (Sw_Chan sw ++ out) (Sw_Completed sw))
          end
      end
  | AWriter fails =>
      match Sw_Chan sw with
      | [] => None
      | p :: rest =>
          Some (let '(D', c') := write_piece info Files (fun _ _ _ => fails)
                                   (Sw_Downloaded sw, Sw_Completed sw) p in
                mkSwarm D' (Sw_Sessions sw) rest c')
      end
  end.

Fixpoint run (sw : Swarm) (acts : list Action) : option Swarm :=
  match acts with
  | [] => Some sw
  | a :: rest => match run_action sw a with None => None | Some sw' => run sw' rest end
  end.

Lemma run_action_step sw a sw' : run_action sw a = Some sw' -> swarm_step sw sw'.
Proof.
  destruct a as [k ev | fails]; simpl.
  - destruct (nth_error (Sw_Sessions sw) k) as [s|] eqn:Hk; [|discriminate].
    destruct (session_step info sha1 (Sw_Downloaded sw) s ev) as [[[D' s'] out]|] eqn:Hs;
      [|discriminate].
    intros H; injection H as <-. eapply StepSession; eauto.
  - destruct (Sw_Chan sw) as [|p rest] eqn:Hc; [discriminate|].
    intros H; injection H as <-. eapply StepWriter; eauto.
Qed.

Lemma run_steps sw acts sw' :
  run sw acts = Some sw' -> clos_refl_trans_1n Swarm swarm_step sw sw'.
Proof.
  revert sw. induction acts as [|a acts IH]; simpl; intros sw H.
  - injection H as <-. constructor.
  - destruct (run_action sw a) as [sw1|] eqn:Ha; [|discriminate].
    econstructor; [eapply run_action_step; eauto | eauto].
Qed.

Lemma run_reachable npeers acts sw :
  run (init_swarm npeers) acts = Some sw -> reachable npeers sw.
Proof. apply run_steps. Qed.

End Swarm.

(** a session holds [i] in flight *)
Definition holds (s : Session) (i : nat) : Prop :=
  match S_Phase s with
  | Requesting j _ _ | Waiting j _ _ => j = i
  | _ => False
  end.

(* ------------------------------------------------------------------------- *)
(** * Further code: message sending, peer lists, metadata set-up *)

(** the errors of the code below *)
Inductive failure :=
| FNoConnection
| FSendFailed
| FPeersLength (n : Z)
| FPiecesLength (n : Z)
| FConnectAction (action : Z)
| FTransactionID
| FNoConnectResponse
| FAnnounceWrite
| FAnnounceRead
| FAnnounceLength (n : Z)
| FTrackerError (msg : list Z)
| FAnnounceAction (action : Z)
| FNoPeers
| FNoInfo
| FUnterminatedInt
| FStringLength
| FUnterminatedDict
| FIndexOutOfRange.   (* a run-time panic on a negative index *)

Inductive fresult (A : Type) :=
| FOk (a : A)
| FErr (e : failure).
Arguments FOk {A} a.
Arguments FErr {A} e.

(** the bytes SendMessage writes (p2p.go:269-276): [uint32(len+1)], the ID,
    the payload *)
Definition serialize_message (msg : Message) : list Z :=
  be_encode 4 ((Z.of_nat (List.length (Payload msg)) + 1) mod 2 ^ 32)
    ++ [ID msg] ++ Payload msg.

(** the retry loop of SendMessage (p2p.go:278-290); [write_ok k] is whether
    the Write of attempt [k] succeeds.  Returns the bytes sent and the number
    of attempts made. *)
Fixpoint send_loop (fuel attempt : nat) (write_ok : nat -> bool) (buf : list Z)
    : fresult (list Z) * nat :=
  match fuel with
  | O => (FErr FSendFailed, (attempt - 1)%nat)
  | S f => if write_ok attempt then (FOk buf, attempt)
           else send_loop f (S attempt) write_ok buf
  end.

Definition SendMessage (connected : bool) (msg : Message) (write_ok : nat -> bool)
    : fresult (list Z) * nat :=
  if negb connected then (FErr FNoConnection, 0%nat)
  else send_loop 3 1 write_ok (serialize_message msg).

(** strings.Split(s, sep) for a one-byte separator *)
Fixpoint split_on (sep : Z) (s : list Z) : list (list Z) :=
  match s with
  | [] => [[]]
  | c :: r =>
      if c =? sep then [] :: split_on sep r
      else match split_on sep r with
           | p :: ps => (c :: p) :: ps
           | [] => [[c]]
           end
  end.

Definition is_digit (c : Z) : bool := (48 <=? c) && (c <=? 57).

(** the value of a decimal digit string, or [None] on a non-digit *)
Fixpoint digits_value (acc : Z) (s : list Z) : option Z :=
  match s with
  | [] => Some acc
  | c :: r => if is_digit c then digits_value (acc * 10 + (c - 48)) r else None
  end.

(** strconv.Atoi with its error ignored ([atoi], tracker.go:517-520): an
    optional sign and at least one digit, 0 on a syntax error, the value
    clamped to the int64 range on a range error *)
Definition clamp64 (v : Z) : Z := Z.max (- 2 ^ 63) (Z.min v (2 ^ 63 - 1)).

Definition atoi (s : list Z) : Z :=
  match s with
  | [] => 0
  | c :: r =>
      if (c =? 45) || (c =? 43) then
        match r with
        | [] => 0
        | _ => match digits_value 0 r with
               | Some v => clamp64 (if c =? 45 then - v else v)
               | None => 0
               end
        end
      else match digits_value 0 s with Some v => clamp64 v | None => 0 end
  end.

(** strconv.ParseUint(s, 10, 16): [None] is the error *)
Definition ParseUint10_16 (s : list Z) : option Z :=
  match s with
  | [] => None
  | _ => match digits_value 0 s with
         | Some v => if v <=? 65535 then Some v else None
         | None => None
         end
  end.

Record PeerAddr := mkPeerAddr { PA_IP : list Z; PA_Port : Z }.

(** fmt.Sprintf("%d.%d.%d.%d", ...) *)
Definition format_ip (b0 b1 b2 b3 : Z) : list Z :=
  decimal b0 ++ [46] ++ decimal b1 ++ [46] ++ decimal b2 ++ [46] ++ decimal b3.

Fixpoint parse_peer_loop (peerBytes : list Z) : list PeerAddr :=
  match peerBytes with
  | b0 :: b1 :: b2 :: b3 :: p0 :: p1 :: rest =>
      mkPeerAddr (format_ip b0 b1 b2 b3) (be_decode [p0; p1]) :: parse_peer_loop rest
  | _ => []
  end.

(** ParsePeers (utils.go:27-43) *)
Definition ParsePeers (peers : list Z) : fresult (list PeerAddr) :=
  if negb (Z.of_nat (List.length peers) mod 6 =? 0)
  then FErr (FPeersLength (Z.of_nat (List.length peers)))
  else FOk (parse_peer_loop peers).

(** the key SendTrackerResponse stores: fmt.Sprintf("%s:%d", IP, Port) *)
Definition peer_addr_key (p : PeerAddr) : list Z := PA_IP p ++ [58] ++ decimal (PA_Port p).

(** one iteration of the loop over [allPeers] (tracker.go:474-498):
    [None] is a [continue] *)
Definition encode_addr (addr : list Z) : option (list Z) :=
  match split_on 58 addr with
  | [ip; portStr] =>
      match split_on 46 ip with
      | [i0; i1; i2; i3] =>
          match ParseUint10_16 portStr with
          | None => None
          | Some port =>
              Some [atoi i0 mod 256; atoi i1 mod 256; atoi i2 mod 256; atoi i3 mod 256;
                    Z.shiftr port 8 mod 256; Z.land port 255]
          end
      | _ => None
      end
  | _ => None
  end.

Definition encode_addrs (addrs : list (list Z)) : list Z :=
  flat_map (fun a => match encode_addr a with Some bs => bs | None => [] end) addrs.

(** GeneratePeerID (utils.go:75-94), given the 12 bytes crand.Read gave *)
Definition peer_id_chars : list Z := bytes_of_string "0123456789abcdefghijklmnopqrstuvxyz".

Definition GeneratePeerID (randomBytes : list Z) : list Z :=
  bytes_of_string "-GT0001-"
    ++ map (fun b => nth (Z.to_nat (b mod Z.of_nat (List.length peer_id_chars)))
                          peer_id_chars 0) randomBytes.

(** InitializePieces (p2p.go:185-202): the piece hashes and Downloaded *)
Fixpoint piece_hashes_loop (n : nat) (i : nat) (pieces : list Z) : list (list Z) :=
  match n with
  | O => []
  | S m => slice (i * 20) ((i + 1) * 20) pieces :: piece_hashes_loop m (S i) pieces
  end.

Definition InitializePieces (pieces : list Z)
    : fresult (list (list Z) * list bool) :=
  if negb (Z.of_nat (List.length pieces) mod 20 =? 0)
  then FErr (FPiecesLength (Z.of_nat (List.length pieces)))
  else
    let NumPieces := (List.length pieces / 20)%nat in
    FOk (piece_hashes_loop NumPieces 0 pieces, repeat false NumPieces).


(** the Request messages of the block loop of DownloadFromPeer
    (p2p.go:499-511) for a piece of [pieceLength] bytes, from [offset] on,
    when every block arrives *)
Fixpoint block_requests (fuel : nat) (pieceIndex : nat) (offset pieceLength : Z)
    : list Message :=
  match fuel with
  | O => []
  | S f =>
      if offset <? pieceLength then
        let remaining := Z.min (pieceLength - offset) blockSize in
        mkMessage Request (be_encode 4 (Z.of_nat pieceIndex) ++ be_encode 4 offset
                           ++ be_encode 4 remaining)
          :: block_requests f pieceIndex (offset + blockSize) pieceLength
      else []
  end.

Definition piece_requests (pieceIndex : nat) (pieceLength : Z) : list Message :=
  block_requests (Z.to_nat pieceLength) pieceIndex 0 pieceLength.

(** int64 arithmetic *)
Definition wrap64 (x : Z) : Z := (x + 2 ^ 63) mod 2 ^ 64 - 2 ^ 63.



(* ------------------------------------------------------------------------- *)
(** * The UDP tracker exchange (SendUDPTrackerRequest, tracker.go:176-348) *)

(** the connect request: protocol id, action 0, transaction id *)
Definition connect_request (transactionID : Z) : list Z :=
  be_encode 8 4497486125440 ++ be_encode 4 0 ++ be_encode 4 transactionID.

(** what one connect attempt sees: a failed Write, a failed Read, or the
    datagram read (truncated to the 16-byte buffer) *)
Inductive ConnectIO :=
| ConnWriteErr
| ConnReadErr
| ConnRead (datagram : list Z).

(** what the announce exchange sees *)
Inductive AnnounceIO :=
| AnnWriteErr
| AnnReadErr
| AnnRead (datagram : list Z).

(** the connect loop (tracker.go:210-242): the packets written with their
    deadlines, and [Some] result once an attempt gets a full response *)
Fixpoint connect_loop (fuel : nat) (attempt : Z) (transactionID : Z)
    (io : Z -> ConnectIO) : list (Z * list Z) * option (fresult Z) :=
  match fuel with
  | O => ([], None)
  | S f =>
      let sent := (5 + attempt * 2, connect_request transactionID) in
      let retry := let '(tr, r) := connect_loop f (attempt + 1) transactionID io in
                   (sent :: tr, r) in
      match io attempt with
      | ConnWriteErr => retry
      | ConnReadErr => retry
      | ConnRead datagram =>
          let resp := firstn 16 datagram in
          if (List.length resp <? 16)%nat then retry
          else
            let action := be_decode (slice 0 4 resp) in
            if negb (action =? 0) then ([sent], Some (FErr (FConnectAction action)))
            else if negb (be_decode (slice 4 8 resp) =? transactionID)
            then ([sent], Some (FErr FTransactionID))
            else ([sent], Some (FOk (be_decode (slice 8 16 resp))))
      end
  end.

(** the announce exchange (tracker.go:244-344): the packet written and the
    (Peers, Interval) of the TrackerResponse *)
Definition announce_exchange (transactionID connectionID : Z)
    (infoHash peerID : list Z) (left key : Z) (io : AnnounceIO)
    : list (Z * list Z) * fresult (list Z * Z) :=
  let announceReq :=
    CreateAnnounceRequest connectionID 1 transactionID infoHash peerID
      0 left 0 2 0 key (-1) 6881 in
  let sent := [(5, announceReq)] in
  match io with
  | AnnWriteErr => (sent, FErr FAnnounceWrite)
  | AnnReadErr => (sent, FErr FAnnounceRead)
  | AnnRead datagram =>
      let resp := firstn 1024 datagram in
      let n := List.length resp in
      if (n <? 20)%nat then (sent, FErr (FAnnounceLength (Z.of_nat n)))
      else
        let action := be_decode (slice 0 4 resp) in
        if action =? 3 then (sent, FErr (FTrackerError (slice 8 n resp)))
        else if negb (action =? 1) then (sent, FErr (FAnnounceAction action))
        else if negb (be_decode (slice 4 8 resp) =? transactionID)
        then (sent, FErr FTransactionID)
        else
          let interval := be_decode (slice 8 12 resp) in
          let peers := slice 20 n resp in
          if negb (Z.of_nat (List.length peers) mod 6 =? 0)
          then (sent, FErr (FPeersLength (Z.of_nat (List.length peers))))
          else (sent, FOk (peers, interval))
  end.

(** SendUDPTrackerRequest after the socket is set up; [info] gives
    GetTotalSize, [key] is mrand.Uint32() *)
Definition SendUDPTrackerRequest (info : TorrentInfo) (transactionID : Z)
    (infoHash peerID : list Z) (key : Z) (cio : Z -> ConnectIO) (aio : AnnounceIO)
    : list (Z * list Z) * fresult (list Z * Z) :=
  let '(tr, r) := connect_loop 3 0 transactionID cio in
  match r with
  | None => (tr, FErr FNoConnectResponse)
  | Some (FErr e) => (tr, FErr e)
  | Some (FOk connectionID) =>
      let '(tr', r') := announce_exchange transactionID connectionID infoHash peerID
                          (GetTotalSize info) key aio in
      (tr ++ tr', r')
  end.

(* ------------------------------------------------------------------------- *)
(** * Peer aggregation (SendTrackerResponse, tracker.go:412-503) *)

Definition set_add (k : list Z) (s : list (list Z)) : list (list Z) :=
  if existsb (bytes_Equal k) s then s else s ++ [k].

(** one tracker in the loops of tracker.go:415-465: its response (an error or
    the Peers and Interval), added to [allPeers] and [finalInterval] *)
Definition tracker_merge (st : list (list Z) * Z) (resp : fresult (list Z * Z))
    : list (list Z) * Z :=
  let '(allPeers, finalInterval) := st in
  match resp with
  | FErr _ => st
  | FOk (peersStr, interval) =>
      match ParsePeers peersStr with
      | FErr _ => st
      | FOk peers =>
          (fold_left (fun s p => set_add (peer_addr_key p) s) peers allPeers,
           if (finalInterval =? 0) || (interval <? finalInterval) then interval
           else finalInterval)
      end
  end.

(** the UDP trackers' responses, then the HTTP trackers'; [order] is the
    order in which [range allPeers] visits the keys *)
Definition SendTrackerResponse_merge (udpResps httpResps : list (fresult (list Z * Z)))
    : list (list Z) * Z :=
  fold_left tracker_merge (udpResps ++ httpResps) ([], 0).

Definition SendTrackerResponse_result (udpResps httpResps : list (fresult (list Z * Z)))
    (order : list (list Z) -> list (list Z)) : fresult (list Z * Z) :=
  let '(allPeers, finalInterval) := SendTrackerResponse_merge udpResps httpResps in
  match allPeers with
  | [] => FErr FNoPeers
  | _ => FOk (encode_addrs (order allPeers), finalInterval)
  end.


(* ------------------------------------------------------------------------- *)
(** * The handshake PerformHandshake sends (p2p.go:71-89) *)

(** [copy(dst[:], src)] into a zeroed [n]-byte array *)
Definition copy_array (n : nat) (src : list Z) : list Z :=
  firstn n src ++ repeat 0 (n - List.length src).

(** binary.Write of [hs]: ProtocolNameLength, Protocol, Reserved (zero),
    InfoHash, PeerID *)
Definition handshake_bytes (infoHash peerID : list Z) : list Z :=
  [Z.of_nat (List.length protocol)] ++ copy_array 19 protocol ++ repeat 0 8
    ++ infoHash ++ copy_array 20 peerID.

(* ------------------------------------------------------------------------- *)
(** * The info dictionary and its hash (parse.go:27-143) *)

(** bytes.Index(data, pat): the first position where [pat] occurs *)
Fixpoint index_from (pat data : list Z) (k : nat) : option nat :=
  if bytes_Equal (firstn (List.length pat) data) pat then Some k
  else match data with
       | [] => None
       | _ :: rest => index_from pat rest (S k)
       end.

Definition bytes_Index (data pat : list Z) : option nat := index_from pat data 0.

(** the number of bytes at the head of [l] that satisfy [p]: how far a
    [for ; j < len(data) && p(data[j]); j++ {}] loop advances *)
Fixpoint count_while (p : Z -> bool) (l : list Z) : nat :=
  match l with
  | [] => O
  | c :: r => if p c then S (count_while p r) else O
  end.

Definition info_key : list Z := bytes_of_string "4:info".

(** strconv.Atoi on a run of decimal digits: the value, or a range error
    above the int64 maximum *)
Definition atoi_digits (s : list Z) : option Z :=
  match digits_value 0 s with
  | Some v => if v <=? 2 ^ 63 - 1 then Some v else None
  | None => None
  end.

(** the scanning loop of extractInfoBytes (parse.go:35-80); [i] and
    [length] are Go ints, so [i = j + length - 1] and [i++] wrap.  Each
    iteration advances [i] by at least one or leaves it negative, so
    [len(data) + 1] iterations reach the loop's exit. *)
Fixpoint extract_loop (fuel : nat) (data : list Z) (start depth i : Z)
    : fresult (list Z) :=
  match fuel with
  | O => FErr FUnterminatedDict
  | S f =>
      if negb (i <? Z.of_nat (List.length data)) then FErr FUnterminatedDict
      else if i <? 0 then FErr FIndexOutOfRange
      else
        let b := nth (Z.to_nat i) data 0 in
        if (b =? 100) || (b =? 108) then                       (* 'd', 'l' *)
          extract_loop f data start (depth + 1) (i + 1)
        else if b =? 101 then                                  (* 'e' *)
          let depth := depth - 1 in
          if depth =? 0 then FOk (slice (Z.to_nat start) (Z.to_nat (i + 1)) data)
          else extract_loop f data start depth (i + 1)
        else if b =? 105 then                                  (* 'i' *)
          let j := i + 1 + Z.of_nat (count_while (fun c => negb (c =? 101))
                                       (skipn (Z.to_nat (i + 1)) data)) in
          if j >=? Z.of_nat (List.length data) then FErr FUnterminatedInt
          else extract_loop f data start depth (j + 1)
        else if is_digit b then
          let j := i + Z.of_nat (count_while is_digit (skipn (Z.to_nat i) data)) in
          if (j <? Z.of_nat (List.length data)) && (nth (Z.to_nat j) data 0 =? 58) then
            match atoi_digits (slice (Z.to_nat i) (Z.to_nat j) data) with
            | None => FErr FStringLength
            | Some length =>
                let j := j + 1 in
                let i := wrap64 (j + length - 1) in
                extract_loop f data start depth (wrap64 (i + 1))
            end
          else extract_loop f data start depth (i + 1)
        else extract_loop f data start depth (i + 1)
  end.

Definition extractInfoBytes (data : list Z) : fresult (list Z) :=
  match bytes_Index data info_key with
  | None => FErr FNoInfo
  | Some idx =>
      let start := Z.of_nat idx + Z.of_nat (List.length info_key) in
      extract_loop (S (List.length data)) data start 0 start
  end.

(** computeInfoHash on the file's contents; [sha1] is crypto/sha1.Sum *)
Definition computeInfoHash (sha1 : list Z -> list Z) (data : list Z) : fresult (list Z) :=
  match extractInfoBytes data with
  | FOk infoBytes => FOk (sha1 infoBytes)
  | FErr e => FErr e
  end.

(** the hash Parse stores in [Torrent.Info.InfoHash]: the error of
    computeInfoHash is not checked, its [[20]byte{}] is stored *)
Definition Parse_InfoHash (sha1 : list Z -> list Z) (data : list Z) : list Z :=
  match computeInfoHash sha1 data with
  | FOk hash => hash
  | FErr _ => repeat 0 20
  end.

(** bencoded values, to state what extractInfoBytes finds *)
#[warnings="-register-all"]
Inductive bvalue :=
| BInt (n : Z)
| BStr (s : list Z)
| BList (l : list bvalue)
| BDict (kvs : list (list Z * bvalue)).

Definition bencode_str (s : list Z) : list Z :=
  decimal (Z.of_nat (List.length s)) ++ [58] ++ s.

Fixpoint bencode (v : bvalue) : list Z :=
  match v with
  | BInt n => [105] ++ (if n <? 0 then 45 :: decimal (- n) else decimal n) ++ [101]
  | BStr s => bencode_str s
  | BList l => [108] ++ List.concat (map bencode l) ++ [101]
  | BDict kvs =>
      [100] ++ List.concat (map (fun kv => let '(k, x) := kv in bencode_str k ++ bencode x) kvs)
        ++ [101]
  end.

(** the iterations extract_loop spends on a value *)
Fixpoint bsteps (v : bvalue) : nat :=
  match v with
  | BInt _ | BStr _ => 1
  | BList l => 2 + list_sum (map bsteps l)
  | BDict kvs => 2 + list_sum (map (fun kv => let '(_, x) := kv in S (bsteps x)) kvs)
  end.

(* ========================================================================= *)
(** * Lemmas *)

Lemma shiftr_land_1_testbit (b k : Z) :
  0 <= k -> (Z.land (Z.shiftr b k) 1 =? 1) = Z.testbit b k.
Proof.
  intros Hk.
  rewrite <- (Z.add_0_l k) at 2. rewrite <- Z.shiftr_spec by lia.
  set (x := Z.shiftr b k).
  rewrite Z.bit0_odd.
  change 1 with (Z.ones 1) at 1. rewrite Z.land_ones by lia.
  rewrite Zmod_odd. destruct (Z.odd x); reflexivity.
Qed.

Lemma be_decode_4 (b0 b1 b2 b3 : Z) :
  be_decode [b0; b1; b2; b3] = ((b0 * 256 + b1) * 256 + b2) * 256 + b3.
Proof. reflexivity. Qed.

Lemma bytes_Equal_spec (a b : list Z) : bytes_Equal a b = true <-> a = b.
Proof.
  revert b. induction a as [|x a IH]; intros [|y b]; simpl;
    try (split; intros H; [discriminate H || reflexivity | discriminate H || reflexivity]).
  rewrite andb_true_iff, Z.eqb_eq, IH. split.
  - intros [-> ->]. reflexivity.
  - intros H. injection H as -> ->. auto.
Qed.

Lemma bytes_Equal_false (a b : list Z) : bytes_Equal a b = false <-> a <> b.
Proof.
  rewrite <- bytes_Equal_spec. destruct (bytes_Equal a b); intuition congruence.
Qed.

(** destructs a list of known length into its elements *)
Ltac destruct_20 l H :=
  do 20 (let x := fresh "x" in destruct l as [|x l]; [simpl in H; lia|]);
  destruct l; [|simpl in H; lia].

(** the scan only picks an index whose Downloaded flag is false *)
Lemma select_from_free (k : nat) (Downloaded : list bool) (bf : option (list Z)) (i : nat) :
  select_from k Downloaded bf = Some i ->
  (k <= i)%nat /\ nth_error Downloaded (i - k) = Some false.
Proof.
  revert k. induction Downloaded as [|d D IH]; intros k; simpl; [discriminate|].
  destruct (negb d && _) eqn:E.
  - intros H. injection H as <-. apply andb_true_iff in E as [E _].
    destruct d; [discriminate|]. rewrite Nat.sub_diag. auto.
  - intros H. destruct (IH (S k) H) as [Hle Hn]. split; [lia|].
    replace (i - k)%nat with (S (i - S k)) by lia. exact Hn.
Qed.

(* ========================================================================= *)
(** * Claims *)

(** C10: HasPiece is total.  For a nil bitfield, or an index whose byte
    [index / 8] lies beyond the bitfield, it returns false; otherwise it
    returns bit [7 - index mod 8] of byte [index / 8].  The result is always
    [Some _]: the slice is never accessed out of range (no panic). *)
Theorem HasPiece_total (bitfield : option (list Z)) (index : Z) (Hidx : 0 <= index) :
  HasPiece bitfield index =
  Some (match bitfield with
        | None => false
        | Some bf =>
            match nth_error bf (Z.to_nat (index / 8)) with
            | None => false
            | Some b => Z.testbit b (7 - index mod 8)
            end
        end).
Proof.
  destruct bitfield as [bf|]; [|reflexivity]. unfold HasPiece; cbv zeta.
  rewrite Z.quot_div_nonneg, Z.rem_mod_nonneg by lia.
  assert (Hq : 0 <= index / 8) by (apply Z.div_pos; lia).
  assert (Hr : 0 <= index mod 8 < 8) by (apply Z.mod_pos_bound; lia).
  destruct (index / 8 >=? Z.of_nat (List.length bf)) eqn:E.
  - apply Z.geb_le in E.
    assert (Hn : nth_error bf (Z.to_nat (index / 8)) = None)
      by (apply nth_error_None; lia).
    rewrite Hn. reflexivity.
  - unfold go_index. replace (index / 8 <? 0) with false by (symmetry; apply Z.ltb_ge; lia).
    destruct (nth_error bf (Z.to_nat (index / 8))) as [b|] eqn:Hn.
    + rewrite shiftr_land_1_testbit by lia. reflexivity.
    + apply nth_error_None in Hn. rewrite Z.geb_leb, Z.leb_gt in E. lia.
Qed.

(** C6: ReceiveMessage on a connection.  With the 4-byte big-endian prefix
    [n]: [n = 0] gives the keep-alive (the empty message, no error);
    [n > 1 048 576] gives an error; fewer than 4 prefix bytes or fewer than
    [n] body bytes (a failed read) give an error; otherwise the message has
    the first body byte as ID and the remaining [n - 1] bytes as payload. *)
Theorem ReceiveMessage_framing (s : list Z) :
  ((List.length s < 4)%nat -> ReceiveMessage (Some s) = Err ErrReadLength) /\
  forall b0 b1 b2 b3 rest,
    s = [b0; b1; b2; b3] ++ rest ->
    let n := be_decode [b0; b1; b2; b3] in
    (n = 0 -> ReceiveMessage (Some s) = Ok (empty_message, rest)) /\
    (n > 1048576 -> ReceiveMessage (Some s) = Err (ErrTooLarge n)) /\
    (0 < n <= 1048576 -> (List.length rest < Z.to_nat n)%nat ->
       ReceiveMessage (Some s) = Err ErrReadBody) /\
    (0 < n <= 1048576 -> (Z.to_nat n <= List.length rest)%nat ->
       exists id payload,
         firstn (Z.to_nat n) rest = id :: payload /\
         List.length payload = Z.to_nat (n - 1) /\
         ReceiveMessage (Some s) = Ok (mkMessage id payload, skipn (Z.to_nat n) rest)).
Proof.
  split.
  - intros H. simpl. apply Nat.ltb_lt in H. rewrite H. reflexivity.
  - intros b0 b1 b2 b3 rest -> n.
    unfold ReceiveMessage. simpl List.length. simpl firstn. simpl skipn.
    fold n. unfold max_message_length. change (Z.shiftl 1 20) with 1048576.
    repeat split.
    + intros Hn. rewrite Hn. reflexivity.
    + intros Hn. replace (n =? 0) with false by (symmetry; apply Z.eqb_neq; lia).
      replace (n >? 1048576) with true by (symmetry; apply Z.gtb_lt; lia). reflexivity.
    + intros Hn Hl. replace (n =? 0) with false by (symmetry; apply Z.eqb_neq; lia).
      replace (n >? 1048576) with false by (symmetry; rewrite Z.gtb_ltb; apply Z.ltb_ge; lia).
      apply Nat.ltb_lt in Hl. rewrite Hl. reflexivity.
    + intros Hn Hl. replace (n =? 0) with false by (symmetry; apply Z.eqb_neq; lia).
      replace (n >? 1048576) with false by (symmetry; rewrite Z.gtb_ltb; apply Z.ltb_ge; lia).
      replace (List.length rest <? Z.to_nat n)%nat with false
        by (symmetry; apply Nat.ltb_ge; lia).
      assert (Hlen : List.length (firstn (Z.to_nat n) rest) = Z.to_nat n)
        by (rewrite length_firstn; lia).
      destruct (firstn (Z.to_nat n) rest) as [|id payload] eqn:Hf.
      * simpl in Hlen. lia.
      * exists id, payload. simpl in Hlen. split; [reflexivity | split; [lia | reflexivity]].
Qed.

(** C7: CreateAnnounceRequest returns 98 bytes with every field at its fixed
    offset, big-endian; the ip field [84,88) stays zero and num_want is
    written as its 32-bit two's complement (-1 gives 0xFFFFFFFF).  The
    info-hash and peer-id are the 20-byte values the tracker client passes. *)
Theorem CreateAnnounceRequest_layout
    (connectionID action transactionID : Z) (infoHash peerID : list Z)
    (downloaded left uploaded event IP key num_want port : Z)
    (Hih : List.length infoHash = 20%nat) (Hpid : List.length peerID = 20%nat) :
  let r := CreateAnnounceRequest connectionID action transactionID infoHash peerID
             downloaded left uploaded event IP key num_want port in
  List.length r = 98%nat /\
  slice 0 8 r = be_encode 8 connectionID /\
  slice 8 12 r = be_encode 4 action /\
  slice 12 16 r = be_encode 4 transactionID /\
  slice 16 36 r = infoHash /\
  slice 36 56 r = peerID /\
  slice 56 64 r = be_encode 8 downloaded /\
  slice 64 72 r = be_encode 8 left /\
  slice 72 80 r = be_encode 8 uploaded /\
  slice 80 84 r = be_encode 4 event /\
  slice 84 88 r = [0; 0; 0; 0] /\
  slice 88 92 r = be_encode 4 key /\
  slice 92 96 r = be_encode 4 (num_want mod 2 ^ 32) /\
  (num_want = -1 -> slice 92 96 r = [255; 255; 255; 255]) /\
  slice 96 98 r = be_encode 2 port.
Proof.
  destruct_20 infoHash Hih. destruct_20 peerID Hpid.
  intros r. repeat split; try reflexivity.
  intros ->. reflexivity.
Qed.

Lemma CreateAnnounceRequest_layout_witness :
  List.length (repeat 7 20) = 20%nat /\ List.length (repeat 9 20) = 20%nat /\
  slice 92 96 (CreateAnnounceRequest 42 1 5 (repeat 7 20) (repeat 9 20)
                 0 100 0 2 0 77 (-1) 6881) = [255; 255; 255; 255].
Proof.
  split; [reflexivity | split; [reflexivity |]].
  apply (CreateAnnounceRequest_layout 42 1 5 (repeat 7 20) (repeat 9 20)
           0 100 0 2 0 77 (-1) 6881); reflexivity.
Defined.

(** C8: on a 68-byte handshake reply, PerformHandshake rejects the peer
    (error, connection closed, peer list unchanged) when the first byte is
    not 19, the 19-byte protocol literal is not "BitTorrent protocol" or the
    20-byte info-hash is not the torrent's; when all three checks pass it
    returns the remote peer-id (bytes 48..68) and records the peer. *)
Theorem PerformHandshake_validation (torrentInfoHash : list Z) (ip : string) (port : Z)
    (reply : list Z) (st : HandshakeState) (Hlen : List.length reply = 68%nat) :
  let out := PerformHandshake_reply torrentInfoHash ip port reply st in
  ((hd 0 reply <> 19 \/ slice 1 20 reply <> protocol \/ slice 28 48 reply <> torrentInfoHash) ->
     (exists e, fst out = Err e) /\ HS_Closed (snd out) = true /\
     HS_Peers (snd out) = HS_Peers st) /\
  ((hd 0 reply = 19 /\ slice 1 20 reply = protocol /\ slice 28 48 reply = torrentInfoHash) ->
     fst out = Ok (slice 48 68 reply) /\
     HS_Peers (snd out) = HS_Peers st ++ [mkPeerEntry ip port (slice 48 68 reply) true None]).
Proof.
  cbv zeta. unfold PerformHandshake_reply, read_handshake.
  rewrite Hlen. change (68 <? 68)%nat with false. cbv iota beta.
  cbn [ProtocolNameLength Protocol HS_InfoHash HS_PeerID].
  split.
  - intros Hbad.
    destruct (hd 0 reply =? 19) eqn:E1; [apply Z.eqb_eq in E1 | ];
      [| simpl; split; [eexists; reflexivity | split; reflexivity]].
    destruct (bytes_Equal (slice 1 20 reply) protocol) eqn:E2;
      [apply bytes_Equal_spec in E2 | simpl; split; [eexists; reflexivity | split; reflexivity]].
    destruct (bytes_Equal (slice 28 48 reply) torrentInfoHash) eqn:E3;
      [apply bytes_Equal_spec in E3 | simpl; split; [eexists; reflexivity | split; reflexivity]].
    exfalso. intuition.
  - intros (H1 & H2 & H3).
    rewrite H1. simpl (19 =? 19). simpl negb.
    replace (bytes_Equal (slice 1 20 reply) protocol) with true
      by (symmetry; apply bytes_Equal_spec; exact H2).
    replace (bytes_Equal (slice 28 48 reply) torrentInfoHash) with true
      by (symmetry; apply bytes_Equal_spec; exact H3).
    split; reflexivity.
Qed.

Lemma PerformHandshake_validation_witness :
  let reply := [19] ++ protocol ++ repeat 0 8 ++ repeat 5 20 ++ repeat 6 20 in
  List.length reply = 68%nat /\
  fst (PerformHandshake_reply (repeat 5 20) "10.0.0.2" 6881 reply (mkHSState [] false))
    = Ok (repeat 6 20).
Proof.
  intros reply. split; [reflexivity|].
  destruct (PerformHandshake_validation (repeat 5 20) "10.0.0.2" 6881 reply
              (mkHSState [] false) eq_refl) as [_ H].
  apply H. repeat split; reflexivity.
Defined.

Lemma HasPiece_total_witness :
  0 <= 9 /\ HasPiece (Some [128; 64]) 9 = Some true.
Proof.
  split; [lia|]. rewrite (HasPiece_total (Some [128; 64]) 9) by lia. reflexivity.
Defined.

(** the last-piece rule holds in single-file mode when NumPieces is the
    number of pieces the length needs *)
Lemma piece_length_single_file (info : TorrentInfo) (i : Z) :
  Info_Files info = [] -> 0 < Info_PieceLength info ->
  0 <= Info_Length info < two64 ->
  (NumPieces info - 1) * Info_PieceLength info < Info_Length info
    <= NumPieces info * Info_PieceLength info ->
  0 <= i < NumPieces info ->
  piece_length_of info i = spec_piece_length info i.
Proof.
  intros Hf Hpl HL Hn Hi.
  unfold piece_length_of, spec_piece_length, GetTotalSize. rewrite Hf.
  rewrite (Z.mod_small (Info_Length info)) by lia.
  set (PL := Info_PieceLength info) in *. set (L := Info_Length info) in *.
  set (n := NumPieces info) in *.
  destruct (i =? n - 1) eqn:E.
  - apply Z.eqb_eq in E. replace (i <? n - 1) with false by (symmetry; apply Z.ltb_ge; lia).
    rewrite Z.rem_mod_nonneg by lia.
    destruct (Z.eq_dec (L - (n - 1) * PL) PL) as [Heq|Hne].
    + replace L with ((n - 1 + 1) * PL) by lia. rewrite Z.mod_mul by lia.
      rewrite Z.eqb_refl. lia.
    + rewrite <- (Z.mod_unique_pos L PL (n - 1) (L - (n - 1) * PL)) by lia.
      replace (L - (n - 1) * PL =? 0) with false by (symmetry; apply Z.eqb_neq; lia).
      reflexivity.
  - apply Z.eqb_neq in E. replace (i <? n - 1) with true by (symmetry; apply Z.ltb_lt; lia).
    reflexivity.
Qed.

(** a multi-file torrent: files of 10 and 20 bytes, 16-byte pieces, two
    piece hashes; "length" is absent from the info dictionary *)
Definition multi_file_info : TorrentInfo :=
  mkInfo 16 (repeat 0 40) 0 [mkEntry 10; mkEntry 20].

(** C2: in multi-file mode the last piece is requested with the length
    computed from [Info.Length] (zero there), not from the total size: for
    30 bytes in 16-byte pieces, piece 1 is requested as 16 bytes while the
    rule (and GetTotalSize) gives 14. *)
Theorem piece_length_multi_file_last :
  NumPieces multi_file_info = 2 /\
  GetTotalSize multi_file_info = 30 /\
  piece_length_of multi_file_info 1 = 16 /\
  spec_piece_length multi_file_info 1 = 14.
Proof. repeat split; reflexivity. Qed.

(** the query string of SendHTTPTrackerRequest, keys in sorted order *)
Lemma http_announce_query_shape (infoHash peerID : list Z) (left : Z) :
  http_announce_query infoHash peerID left =
  bytes_of_string "compact=1&downloaded=0&event=started&info_hash="
    ++ QueryEscape (QueryEscape infoHash)
    ++ bytes_of_string "&left=" ++ QueryEscape (decimal left)
    ++ bytes_of_string "&peer_id=" ++ QueryEscape peerID
    ++ bytes_of_string "&port=6881&uploaded=0".
Proof.
  unfold http_announce_query, Values_Encode. simpl.
  repeat rewrite <- app_assoc. reflexivity.
Qed.

(** C3: SendHTTPTrackerRequest escapes the info-hash twice: it adds
    [url.QueryEscape(infoHash)] to url.Values, whose Encode escapes the
    value again.  For every info-hash the query carries
    QueryEscape(QueryEscape(h)); for the all-zero hash each byte appears as
    "%2500" instead of "%00". *)
Theorem http_query_info_hash_double_escaped :
  (forall infoHash peerID left, exists pre post,
      http_announce_query infoHash peerID left =
      pre ++ bytes_of_string "info_hash=" ++ QueryEscape (QueryEscape infoHash) ++ post) /\
  QueryEscape (repeat 0 20) = List.concat (repeat (bytes_of_string "%00") 20) /\
  QueryEscape (QueryEscape (repeat 0 20)) = List.concat (repeat (bytes_of_string "%2500") 20).
Proof.
  split; [|split; reflexivity].
  intros infoHash peerID left.
  exists (bytes_of_string "compact=1&downloaded=0&event=started&").
  exists (bytes_of_string "&left=" ++ QueryEscape (decimal left)
          ++ bytes_of_string "&peer_id=" ++ QueryEscape peerID
          ++ bytes_of_string "&port=6881&uploaded=0").
  rewrite http_announce_query_shape. reflexivity.
Qed.

(** a one-piece torrent of 16 bytes, and a SHA-1 stand-in that maps every
    buffer to the stored piece hash *)
Definition one_piece_info : TorrentInfo := mkInfo 16 (repeat 0 20) 16 [].
Definition sha1_matching : list Z -> list Z := fun _ => repeat 0 20.
Definition single_file : list FileInfo := [mkFileInfo "out/file" 16 0].

(** two peers that both have piece 0: each sends its Bitfield and Unchoke;
    peer 0 is assigned piece 0 and sends its Request; then a keep-alive
    arrives from peer 0 (ReceiveMessage returns [&Message{}], whose ID is 0,
    Choke); then peer 1 runs the selection. *)
Definition double_assignment_trace : list Action :=
  [ASession 0 (EvRecv (mkMessage Bitfield [128]));
   ASession 0 (EvRecv (mkMessage Unchoke []));
   ASession 1 (EvRecv (mkMessage Bitfield [128]));
   ASession 1 (EvRecv (mkMessage Unchoke []));
   ASession 0 EvSelect;
   ASession 0 EvSendOk;
   ASession 0 (EvRecv empty_message);
   ASession 1 EvSelect].

(** C1: the scheduler can hand one piece to two sessions at once.  The
    Choke branch of the block receive loop (p2p.go:553-562), also taken on a
    keep-alive, clears [Downloaded[pieceIndex]] but keeps downloading the
    piece, so another session's scan selects it again. *)
Theorem scheduler_double_assignment :
  ReceiveMessage (Some [0; 0; 0; 0]) = Ok (empty_message, []) /\
  exists sw s0 s1,
    reachable one_piece_info sha1_matching single_file 2 sw /\
    nth_error (Sw_Sessions sw) 0 = Some s0 /\
    nth_error (Sw_Sessions sw) 1 = Some s1 /\
    holds s0 0 /\ holds s1 0.
Proof.
  split; [reflexivity|].
  destruct (run one_piece_info sha1_matching single_file
              (init_swarm one_piece_info 2) double_assignment_trace) as [sw|] eqn:Hrun;
    [|discriminate Hrun].
  pose proof Hrun as Hsw. vm_compute in Hsw. injection Hsw as <-.
  do 3 eexists. split; [apply (run_reachable _ _ _ _ double_assignment_trace); exact Hrun|].
  split; [reflexivity|]. split; [reflexivity|]. split; reflexivity.
Qed.

(** a torrent whose single piece takes two blocks *)
Definition two_block_info : TorrentInfo := mkInfo 32768 (repeat 0 20) 32768 [].

(** C4 (counterexample): a session waiting for block (0, 0) of piece 0
    receives a Piece message for index 5, begin 999; its block is appended
    to the buffer of piece 0 and the session moves on to the next block. *)
Lemma piece_message_fields_ignored :
  session_step two_block_info sha1_matching [true]
    (mkSession (Some [128]) false (Waiting 0 0 []))
    (EvRecv (mkMessage Piece (be_encode 4 5 ++ be_encode 4 999 ++ [1; 2; 3])))
  = Some ([true], mkSession (Some [128]) false (Requesting 0 16384 [1; 2; 3]), []).
Proof. reflexivity. Qed.

(** C4 (as the code does it): while a session waits for a block of piece
    [i], a Piece message with a payload of at least 8 bytes has
    [payload[8:]] appended to the buffer whatever its index and begin fields
    (the first 8 bytes) say; a shorter payload ends the session and returns
    the piece to Missing. *)
Theorem piece_message_appended (info : TorrentInfo) (sha1 : list Z -> list Z)
    (Downloaded : list bool) (bf : option (list Z)) (choked : bool)
    (i : nat) (offset : Z) (data payload : list Z) :
  let s := mkSession bf choked (Waiting i offset data) in
  ((8 <= List.length payload)%nat ->
     session_step info sha1 Downloaded s (EvRecv (mkMessage Piece payload)) =
     Some (let '(D', ph, out) :=
             next_block info sha1 Downloaded i (offset + blockSize)
                        (data ++ skipn 8 payload) in
           (D', mkSession bf choked ph, out))) /\
  ((List.length payload < 8)%nat ->
     session_step info sha1 Downloaded s (EvRecv (mkMessage Piece payload)) =
     Some (list_set Downloaded i false, mkSession bf choked Exited, [])).
Proof.
  intros s. unfold s, session_step, block_step. cbn [S_Phase S_Bitfield S_Choked ID Payload].
  change (Piece =? Piece) with true. cbv iota beta.
  split; intros H.
  - replace (List.length payload <? 8)%nat with false by (symmetry; apply Nat.ltb_ge; lia).
    destruct (next_block info sha1 Downloaded i (offset + blockSize) (data ++ skipn 8 payload))
      as [[D' ph] out]. reflexivity.
  - replace (List.length payload <? 8)%nat with true by (symmetry; apply Nat.ltb_lt; lia).
    reflexivity.
Qed.

(** a SHA-1 stand-in under which no buffer matches the stored hash *)
Definition sha1_mismatching : list Z -> list Z := fun _ => repeat 1 20.

(** C5 (counterexample): the last block of piece 0 arrives and the hash
    does not match; the session does not end: it clears Downloaded[0] and
    goes back to the selection step. *)
Lemma hash_mismatch_session_continues :
  session_step one_piece_info sha1_mismatching [true]
    (mkSession (Some [128]) false (Waiting 0 0 []))
    (EvRecv (mkMessage Piece (repeat 0 8 ++ repeat 9 16)))
  = Some ([false], mkSession (Some [128]) false Selecting, []).
Proof. reflexivity. Qed.

(** C5 (as the code does it): when the block that completes piece [i]
    gives a buffer whose SHA-1 differs from PieceHashes[i], the session sets
    Downloaded[i] to false (the piece is Missing again), sends nothing on
    pieceChan and returns to the selection step instead of ending. *)
Theorem hash_mismatch_returns_piece (info : TorrentInfo) (sha1 : list Z -> list Z)
    (Downloaded : list bool) (bf : option (list Z)) (choked : bool)
    (i : nat) (offset : Z) (data payload : list Z)
    (Hlen : (8 <= List.length payload)%nat)
    (Hlast : piece_length_of info (Z.of_nat i) <= offset + blockSize)
    (Hbad : sha1 (data ++ skipn 8 payload) <> PieceHash info i) :
  session_step info sha1 Downloaded (mkSession bf choked (Waiting i offset data))
    (EvRecv (mkMessage Piece payload)) =
  Some (list_set Downloaded i false, mkSession bf choked Selecting, []).
Proof.
  destruct (piece_message_appended info sha1 Downloaded bf choked i offset data payload)
    as [H _].
  rewrite (H Hlen). unfold next_block.
  replace (offset + blockSize <? piece_length_of info (Z.of_nat i)) with false
    by (symmetry; apply Z.ltb_ge; lia).
  apply bytes_Equal_false in Hbad. rewrite Hbad. reflexivity.
Qed.

Lemma hash_mismatch_returns_piece_witness :
  (8 <= List.length (repeat 0 8 ++ repeat 9 16))%nat /\
  session_step one_piece_info sha1_mismatching [true]
    (mkSession (Some [128]) false (Waiting 0 0 []))
    (EvRecv (mkMessage Piece (repeat 0 8 ++ repeat 9 16)))
  = Some ([false], mkSession (Some [128]) false Selecting, []).
Proof.
  split; [simpl; lia|].
  apply (hash_mismatch_returns_piece one_piece_info sha1_mismatching [true] (Some [128])
           false 0 0 [] (repeat 0 8 ++ repeat 9 16)).
  - simpl; lia.
  - vm_compute. discriminate.
  - vm_compute. discriminate.
Defined.

Lemma list_set_idem {A} (l : list A) (i : nat) (v : A) :
  list_set (list_set l i v) i v = list_set l i v.
Proof.
  revert i. induction l as [|x l IH]; intros [|i]; simpl; try reflexivity.
  f_equal. apply IH.
Qed.

Lemma write_chunks_spec (info : TorrentInfo) (Files : list FileInfo)
    (WriteAt : FileInfo -> Z -> list Z -> bool) (Downloaded : list bool)
    (piece : PieceResult) :
  write_chunks info Files WriteAt Downloaded piece =
  if existsb (chunk_write_fails info WriteAt piece) Files
  then list_set Downloaded (PR_Index piece) false else Downloaded.
Proof.
  unfold write_chunks. revert Downloaded.
  induction Files as [|file Files IH]; intros D; simpl; [reflexivity|].
  rewrite IH. unfold chunk_write_fails.
  destruct (_ >=? _); simpl; [reflexivity|].
  destruct (WriteAt _ _ _); simpl; [|reflexivity].
  destruct (existsb _ Files); [apply list_set_idem | reflexivity].
Qed.

(** C9 (counterexample): a one-piece torrent whose single write fails.
    StartDownload returns nil (so the program exits with 0): the piece is
    still recorded in [completed], only its Downloaded flag is cleared. *)
Lemma write_failure_not_propagated :
  StartDownload_writer one_piece_info single_file (fun _ _ _ => true) [true]
    [mkPieceResult 0 (repeat 9 16)]
  = (Ok tt, [false], [0%nat]).
Proof. reflexivity. Qed.

(** C9 (as the code does it): the writer, on a piece it has not written
    yet, clears the piece's Downloaded flag exactly when one of its writes
    fails, and the write error is never returned: StartDownload's only error
    after the loop is the incomplete-download one. *)
Theorem write_failure_marks_missing (info : TorrentInfo) (Files : list FileInfo)
    (WriteAt : FileInfo -> Z -> list Z -> bool) :
  (forall Downloaded completed piece,
     existsb (Nat.eqb (PR_Index piece)) completed = false ->
     fst (write_piece info Files WriteAt (Downloaded, completed) piece) =
     if existsb (chunk_write_fails info WriteAt piece) Files
     then list_set Downloaded (PR_Index piece) false else Downloaded) /\
  (forall Downloaded pieces,
     fst (fst (StartDownload_writer info Files WriteAt Downloaded pieces)) = Ok tt \/
     exists written total,
       fst (fst (StartDownload_writer info Files WriteAt Downloaded pieces))
       = Err (ErrDownloadIncomplete written total)).
Proof.
  split.
  - intros D completed piece Hnew. unfold write_piece. rewrite Hnew.
    apply write_chunks_spec.
  - intros D pieces. unfold StartDownload_writer.
    destruct (fold_left _ pieces _) as [D' completed]. simpl.
    destruct (negb _); [right; eauto | left; reflexivity].
Qed.

(* ========================================================================= *)
(** * Further properties *)

Lemma be_encode_length (n : nat) (v : Z) : List.length (be_encode n v) = n.
Proof. induction n; simpl; auto. Qed.

Lemma be_encode_bytes (n : nat) (v : Z) : Forall (fun b => 0 <= b < 256) (be_encode n v).
Proof.
  induction n; simpl; constructor; auto.
  change 255 with (Z.ones 8). rewrite Z.land_ones by lia. apply Z.mod_pos_bound. lia.
Qed.

Lemma be_decode_acc_app (acc : Z) (a b : list Z) :
  be_decode_acc acc (a ++ b) = be_decode_acc (be_decode_acc acc a) b.
Proof. revert acc; induction a; simpl; auto. Qed.

Lemma Z_mod_mul_r (a b c : Z) : 0 < b -> 0 < c ->
  a mod (b * c) = a mod b + b * ((a / b) mod c).
Proof.
  intros Hb Hc.
  rewrite (Z.mod_eq a (b * c)) by lia. rewrite <- Z.div_div by lia.
  rewrite (Z.mod_eq (a / b) c) by lia. rewrite (Z.mod_eq a b) by lia. ring.
Qed.

Lemma be_decode_acc_encode (n : nat) (acc v : Z) :
  be_decode_acc acc (be_encode n v) = acc * 2 ^ (8 * Z.of_nat n) + v mod 2 ^ (8 * Z.of_nat n).
Proof.
  revert acc. induction n as [|m IH]; intros acc.
  - simpl. rewrite Z.mod_1_r. lia.
  - cbn [be_encode be_decode_acc]. rewrite IH.
    change 255 with (Z.ones 8). rewrite Z.land_ones, Z.shiftr_div_pow2 by lia.
    replace (8 * Z.of_nat (S m)) with (8 * Z.of_nat m + 8) by lia.
    rewrite Z.pow_add_r by lia.
    rewrite Z_mod_mul_r by (try apply Z.pow_pos_nonneg; lia).
    change (2 ^ 8) with 256. ring.
Qed.

Lemma be_decode_encode (n : nat) (v : Z) :
  be_decode (be_encode n v) = v mod 2 ^ (8 * Z.of_nat n).
Proof. unfold be_decode. rewrite be_decode_acc_encode. lia. Qed.

(** Extra (p2p.go SendMessage, ReceiveMessage): when SendMessage succeeds on a
    connected peer for a message whose ID is a byte and whose payload fits the
    1 MiB limit, the bytes it wrote are read back by ReceiveMessage as the same
    message, and whatever followed them on the stream is left unread. *)
Theorem SendMessage_ReceiveMessage_roundtrip (msg : Message) (write_ok : nat -> bool)
    (sent : list Z) (attempts : nat) (rest : list Z)
    (Hid : 0 <= ID msg < 256)
    (Hlen : Z.of_nat (List.length (Payload msg)) + 1 <= max_message_length)
    (Hsend : SendMessage true msg write_ok = (FOk sent, attempts)) :
  ReceiveMessage (Some (sent ++ rest)) = Ok (msg, rest).
Proof.
  assert (Hsent : sent = serialize_message msg).
  { unfold SendMessage, send_loop in Hsend; cbn [negb] in Hsend.
    destruct (write_ok 1%nat); [congruence|].
    destruct (write_ok 2%nat); [congruence|].
    destruct (write_ok 3%nat); congruence. }
  subst sent. destruct msg as [id P]; cbn [ID Payload] in *.
  unfold serialize_message; cbn [ID Payload].
  assert (HL : (Z.of_nat (List.length P) + 1) mod 2 ^ 32 = Z.of_nat (List.length P) + 1).
  { apply Z.mod_small. unfold max_message_length in Hlen.
    rewrite Z.shiftl_1_l in Hlen. split; [lia|].
    apply Z.le_lt_trans with (2 ^ 20); [lia|]. apply Z.pow_lt_mono_r; lia. }
  rewrite HL, <- !app_assoc.
  assert (H4 : forall l, firstn 4 (be_encode 4 (Z.of_nat (List.length P) + 1) ++ l) = be_encode 4 (Z.of_nat (List.length P) + 1) /\ skipn 4 (be_encode 4 (Z.of_nat (List.length P) + 1) ++ l) = l).
  { intros l. rewrite firstn_app, skipn_app, be_encode_length, Nat.sub_diag, firstn_O, skipn_O,
      app_nil_r, firstn_all2, skipn_all2 by (rewrite be_encode_length; lia). auto. }
  unfold ReceiveMessage; cbv beta iota zeta.
  destruct (H4 ([id] ++ P ++ rest)) as [-> ->].
  rewrite be_decode_encode. change (8 * Z.of_nat 4) with 32. rewrite HL.
  rewrite length_app, be_encode_length.
  replace ((4 + List.length ([id] ++ P ++ rest) <? 4)%nat) with false
    by (symmetry; apply Nat.ltb_ge; lia).
  replace (Z.of_nat (List.length P) + 1 =? 0) with false by (symmetry; apply Z.eqb_neq; lia).
  replace (Z.of_nat (List.length P) + 1 >? max_message_length) with false
    by (symmetry; rewrite Z.gtb_ltb; apply Z.ltb_ge; lia).
  replace (Z.to_nat (Z.of_nat (List.length P) + 1)) with (S (List.length P)) by lia.
  replace ((List.length ([id] ++ P ++ rest) <? S (List.length P))%nat) with false
    by (symmetry; apply Nat.ltb_ge; rewrite !length_app; cbn [List.length]; lia).
  cbn [app firstn skipn].
  rewrite firstn_app, Nat.sub_diag, firstn_O, app_nil_r, firstn_all.
  rewrite skipn_app, Nat.sub_diag, skipn_O, skipn_all. reflexivity.
Qed.


Lemma decimal_aux_digits (fuel : nat) (n : Z) (acc : list Z) :
  (0 < fuel)%nat -> 0 <= n < 10 ^ Z.of_nat fuel ->
  exists ds, decimal_aux fuel n acc = ds ++ acc /\ ds <> [] /\
    Forall (fun c => 48 <= c <= 57) ds /\
    forall a, digits_value a (ds ++ acc) = digits_value (a * 10 ^ Z.of_nat (List.length ds) + n) acc.
Proof.
  revert n acc. induction fuel as [|f IH]; intros n acc Hf Hn.
  - lia.
  - assert (Hm : 0 <= n mod 10 < 10) by (apply Z.mod_pos_bound; lia).
    cbn [decimal_aux].
    destruct (n / 10 =? 0) eqn:E.
    + apply Z.eqb_eq in E. exists [48 + n mod 10]. split; [reflexivity|].
      split; [discriminate|]. split; [constructor; [lia|constructor]|].
      intros a. cbn [app digits_value List.length].
      unfold is_digit. replace ((48 <=? 48 + n mod 10) && (48 + n mod 10 <=? 57)) with true
        by (symmetry; apply andb_true_iff; split; apply Z.leb_le; lia).
      apply Z.div_small_iff in E; [|lia].
      rewrite (Z.mod_small n 10) by lia. f_equal. change (Z.of_nat 1) with 1. lia.
    + apply Z.eqb_neq in E.
      assert (Hq : 0 <= n / 10 < 10 ^ Z.of_nat f).
      { split; [apply Z.div_pos; lia|]. apply Z.div_lt_upper_bound; [lia|].
        rewrite Nat2Z.inj_succ, Z.pow_succ_r in Hn by lia. lia. }
      assert (Hf' : (0 < f)%nat).
      { destruct f; [|lia]. simpl in Hn. exfalso. apply E. apply Z.div_small. lia. }
      destruct (IH (n / 10) ((48 + n mod 10) :: acc) Hf' Hq) as (ds & Heq & Hne & Hd & Hv).
      exists (ds ++ [48 + n mod 10]). rewrite Heq, <- app_assoc. split; [reflexivity|].
      split; [destruct ds; [congruence|discriminate]|].
      split; [apply Forall_app; split; [exact Hd|constructor; [lia|constructor]]|].
      intros a. try rewrite <- app_assoc. cbn [app]. rewrite Hv. cbn [digits_value].
      unfold is_digit. replace ((48 <=? 48 + n mod 10) && (48 + n mod 10 <=? 57)) with true
        by (symmetry; apply andb_true_iff; split; apply Z.leb_le; lia).
      f_equal. rewrite length_app, Nat2Z.inj_add, Z.pow_add_r by lia.
      cbn [List.length]. change (Z.of_nat 1) with 1.
      rewrite (Z.div_mod n 10) at 3 by lia. ring.
Qed.

Lemma decimal_digits (n : Z) :
  0 <= n < 10 ^ 20 ->
  decimal n <> [] /\ Forall (fun c => 48 <= c <= 57) (decimal n) /\
  forall rest, digits_value 0 (decimal n ++ rest) = digits_value n rest.
Proof.
  intros Hn. destruct (decimal_aux_digits 20 n [] ltac:(lia) Hn) as (ds & Heq & Hne & Hd & Hv).
  unfold decimal. rewrite Heq, app_nil_r. split; [exact Hne|]. split; [exact Hd|].
  intros rest.
  enough (forall a, digits_value a (ds ++ rest) = digits_value (a * 10 ^ Z.of_nat (List.length ds) + n) rest)
    by (rewrite H; f_equal).
  (* digits_value depends only on the digits read before [rest] *)
  assert (Hgen : forall a l, Forall (fun c => 48 <= c <= 57) l ->
           digits_value a (l ++ rest) =
           match digits_value a l with Some v => digits_value v rest | None => None end).
  { intros a0 l Hl. revert a0. induction Hl as [|c l Hc Hl IHl]; intros a0; [reflexivity|].
    cbn [app digits_value]. unfold is_digit.
    replace ((48 <=? c) && (c <=? 57)) with true
      by (symmetry; apply andb_true_iff; split; apply Z.leb_le; lia).
    apply IHl. }
  intros a. rewrite Hgen by exact Hd. specialize (Hv a). rewrite app_nil_r in Hv. rewrite Hv.
  reflexivity.
Qed.

Lemma split_on_cons_ex (sep : Z) (s : list Z) : exists p ps, split_on sep s = p :: ps.
Proof.
  induction s as [|c s IH]; simpl; [eauto|].
  destruct (c =? sep); [eauto|]. destruct IH as (p & ps & ->). eauto.
Qed.

Lemma split_on_app_nosep (sep : Z) (a b : list Z) :
  Forall (fun c => c <> sep) a ->
  split_on sep (a ++ b) =
  match split_on sep b with p :: ps => (a ++ p) :: ps | [] => [a] end.
Proof.
  intros Ha. induction Ha as [|c a Hc Ha IH].
  - simpl. destruct (split_on_cons_ex sep b) as (p & ps & ->). reflexivity.
  - cbn [app split_on]. replace (c =? sep) with false by (symmetry; apply Z.eqb_neq; exact Hc).
    rewrite IH. destruct (split_on_cons_ex sep b) as (p & ps & ->). reflexivity.
Qed.

Lemma split_on_nosep (sep : Z) (a : list Z) :
  Forall (fun c => c <> sep) a -> split_on sep a = [a].
Proof.
  intros Ha. rewrite <- (app_nil_r a). rewrite split_on_app_nosep by exact Ha. reflexivity.
Qed.

Lemma split_on_sep (sep : Z) (a b : list Z) :
  Forall (fun c => c <> sep) a -> split_on sep (a ++ [sep] ++ b) = a :: split_on sep b.
Proof.
  intros Ha. rewrite split_on_app_nosep by exact Ha. cbn [app split_on].
  rewrite Z.eqb_refl, app_nil_r. reflexivity.
Qed.

Lemma digits_nosep (l : list Z) (sep : Z) :
  Forall (fun c => 48 <= c <= 57) l -> (sep < 48 \/ 57 < sep) -> Forall (fun c => c <> sep) l.
Proof. intros Hl Hs. eapply Forall_impl; [|exact Hl]. intros c Hc; simpl in Hc; lia. Qed.

Lemma atoi_decimal (n : Z) : 0 <= n < 256 -> atoi (decimal n) = n.
Proof.
  intros Hn. destruct (decimal_digits n ltac:(lia)) as (Hne & Hd & Hv).
  specialize (Hv []). rewrite app_nil_r in Hv.
  unfold atoi. destruct (decimal n) as [|c r] eqn:E; [congruence|].
  inversion Hd as [|? ? Hc _]; subst.
  replace ((c =? 45) || (c =? 43)) with false
    by (symmetry; apply orb_false_iff; split; apply Z.eqb_neq; lia).
  rewrite Hv. cbn. unfold clamp64. lia.
Qed.

Lemma ParseUint_decimal (n : Z) : 0 <= n <= 65535 -> ParseUint10_16 (decimal n) = Some n.
Proof.
  intros Hn. destruct (decimal_digits n ltac:(lia)) as (Hne & Hd & Hv).
  specialize (Hv []). rewrite app_nil_r in Hv.
  unfold ParseUint10_16. destruct (decimal n) as [|c r] eqn:E; [congruence|].
  rewrite Hv. cbn [digits_value]. replace (n <=? 65535) with true by lia. reflexivity.
Qed.

Lemma format_ip_digits (b0 b1 b2 b3 : Z) :
  0 <= b0 < 256 -> 0 <= b1 < 256 -> 0 <= b2 < 256 -> 0 <= b3 < 256 ->
  Forall (fun c => c <> 58) (format_ip b0 b1 b2 b3) /\
  split_on 46 (format_ip b0 b1 b2 b3) = [decimal b0; decimal b1; decimal b2; decimal b3].
Proof.
  intros H0 H1 H2 H3.
  destruct (decimal_digits b0 ltac:(lia)) as (_ & D0 & _).
  destruct (decimal_digits b1 ltac:(lia)) as (_ & D1 & _).
  destruct (decimal_digits b2 ltac:(lia)) as (_ & D2 & _).
  destruct (decimal_digits b3 ltac:(lia)) as (_ & D3 & _).
  unfold format_ip. split.
  - repeat (apply Forall_app; split); try (apply digits_nosep; [assumption|lia]);
      repeat constructor; lia.
  - rewrite !split_on_sep by (apply digits_nosep; [assumption|lia]).
    rewrite split_on_nosep by (apply digits_nosep; [assumption|lia]). reflexivity.
Qed.

(** the key of a parsed peer converts back to its six bytes *)
Lemma encode_addr_key (b0 b1 b2 b3 p0 p1 : Z) :
  Forall (fun b => 0 <= b < 256) [b0; b1; b2; b3; p0; p1] ->
  encode_addr (peer_addr_key (mkPeerAddr (format_ip b0 b1 b2 b3) (be_decode [p0; p1])))
  = Some [b0; b1; b2; b3; p0; p1].
Proof.
  intros Hb. repeat match goal with H : Forall _ (_ :: _) |- _ => inversion H; subst; clear H end.
  unfold encode_addr, peer_addr_key; cbn [PA_IP PA_Port].
  destruct (format_ip_digits b0 b1 b2 b3) as [Hns Hsp]; try assumption.
  assert (Hp : be_decode [p0; p1] = p0 * 256 + p1) by reflexivity.
  rewrite Hp.
  destruct (decimal_digits (p0 * 256 + p1) ltac:(lia)) as (_ & Dp & _).
  rewrite split_on_sep by exact Hns.
  rewrite split_on_nosep by (apply digits_nosep; [assumption|lia]).
  rewrite Hsp, ParseUint_decimal by lia.
  rewrite !atoi_decimal by lia. rewrite !Z.mod_small by lia.
  rewrite Z.shiftr_div_pow2 by lia. change 255 with (Z.ones 8). rewrite Z.land_ones by lia.
  change (2 ^ 8) with 256.
  replace ((p0 * 256 + p1) / 256) with p0 by (apply Z.div_unique with p1; lia).
  rewrite Z.mod_small with (a := p0) by lia.
  replace ((p0 * 256 + p1) mod 256) with p1 by (apply Z.mod_unique with p0; lia).
  reflexivity.
Qed.

Lemma parse_peer_loop_spec (n : nat) (l : list Z) :
  List.length l = (6 * n)%nat ->
  List.length (parse_peer_loop l) = n /\
  forall k, (k < n)%nat -> exists b0 b1 b2 b3 p0 p1,
    slice (6 * k) (6 * k + 6) l = [b0; b1; b2; b3; p0; p1] /\
    nth_error (parse_peer_loop l) k = Some (mkPeerAddr (format_ip b0 b1 b2 b3) (p0 * 256 + p1)).
Proof.
  revert l. induction n as [|n IH]; intros l Hl.
  - destruct l; [|simpl in Hl; lia]. split; [reflexivity|]. intros k Hk; lia.
  - destruct l as [|b0 [|b1 [|b2 [|b3 [|p0 [|p1 rest]]]]]]; simpl in Hl; try lia.
    destruct (IH rest ltac:(lia)) as [Hlen Hnth].
    cbn [parse_peer_loop]. split; [cbn [List.length]; lia|].
    intros [|k] Hk.
    + exists b0, b1, b2, b3, p0, p1. split; reflexivity.
    + destruct (Hnth k ltac:(lia)) as (c0 & c1 & c2 & c3 & q0 & q1 & Hs & Hn).
      exists c0, c1, c2, c3, q0, q1. split; [|exact Hn].
      unfold slice in *. replace (6 * S k + 6 - 6 * S k)%nat with 6%nat by lia.
      replace (6 * k + 6 - 6 * k)%nat with 6%nat in Hs by lia.
      replace (6 * S k)%nat with (S (S (S (S (S (S (6 * k)))))))%nat by lia. exact Hs.
Qed.

Lemma parse_peers_shape (peers : list Z) :
  (Z.of_nat (List.length peers) mod 6 <> 0 ->
   ParsePeers peers = FErr (FPeersLength (Z.of_nat (List.length peers)))) /\
  (Z.of_nat (List.length peers) mod 6 = 0 ->
   exists ps, ParsePeers peers = FOk ps /\ List.length ps = (List.length peers / 6)%nat /\
   forall k, (k < List.length ps)%nat -> exists b0 b1 b2 b3 p0 p1,
     slice (6 * k) (6 * k + 6) peers = [b0; b1; b2; b3; p0; p1] /\
     nth_error ps k = Some (mkPeerAddr (format_ip b0 b1 b2 b3) (p0 * 256 + p1))).
Proof.
  unfold ParsePeers. split; intros H.
  - apply Z.eqb_neq in H. rewrite H. reflexivity.
  - rewrite H. cbn [Z.eqb negb]. exists (parse_peer_loop peers). split; [reflexivity|].
    assert (Hm : (List.length peers mod 6 = 0)%nat).
    { apply Nat2Z.inj. rewrite Nat2Z.inj_mod. exact H. }
    assert (Hl : List.length peers = (6 * (List.length peers / 6))%nat).
    { rewrite (Nat.div_mod_eq (List.length peers) 6) at 1. lia. }
    destruct (parse_peer_loop_spec _ _ Hl) as [Hlen Hnth].
    split; [exact Hlen|]. rewrite Hlen. exact Hnth.
Qed.

Lemma parse_peer_loop_canonical (l : list Z) :
  Forall (fun b => 0 <= b < 256) l ->
  Forall (fun p => exists b0 b1 b2 b3 p0 p1,
            Forall (fun b => 0 <= b < 256) [b0; b1; b2; b3; p0; p1] /\
            p = mkPeerAddr (format_ip b0 b1 b2 b3) (be_decode [p0; p1]))
         (parse_peer_loop l).
Proof.
  intros Hl. remember (List.length l) as m eqn:Hm.
  revert l Hl Hm. induction m as [m IH] using (well_founded_induction lt_wf).
  intros l Hl Hm.
  destruct l as [|b0 [|b1 [|b2 [|b3 [|p0 [|p1 rest]]]]]]; cbn [parse_peer_loop]; try constructor.
  - exists b0, b1, b2, b3, p0, p1. split; [|reflexivity].
    repeat match goal with H : Forall _ (_ :: _) |- _ => inversion H; subst; clear H end.
    repeat (apply Forall_cons; [assumption|]); apply Forall_nil.
  - apply (IH (List.length rest)); [simpl in Hm; lia| |reflexivity].
    repeat match goal with H : Forall _ (_ :: _) |- _ => inversion H; subst; clear H end.
    assumption.
Qed.

Lemma encode_parse_canonical (qs : list PeerAddr) :
  Forall (fun p => exists b0 b1 b2 b3 p0 p1,
            Forall (fun b => 0 <= b < 256) [b0; b1; b2; b3; p0; p1] /\
            p = mkPeerAddr (format_ip b0 b1 b2 b3) (be_decode [p0; p1])) qs ->
  parse_peer_loop (encode_addrs (map peer_addr_key qs)) = qs.
Proof.
  induction 1 as [|q qs Hq Hqs IH]; [reflexivity|].
  destruct Hq as (b0 & b1 & b2 & b3 & p0 & p1 & Hb & ->).
  unfold encode_addrs in *. cbn [map flat_map].
  rewrite encode_addr_key by exact Hb. cbn [app parse_peer_loop]. rewrite IH. reflexivity.
Qed.

Lemma fold_set_add_spec (ps : list PeerAddr) (s0 : list (list Z)) :
  NoDup s0 ->
  NoDup (fold_left (fun s p => set_add (peer_addr_key p) s) ps s0) /\
  forall k, In k (fold_left (fun s p => set_add (peer_addr_key p) s) ps s0) <->
            In k s0 \/ exists p, In p ps /\ k = peer_addr_key p.
Proof.
  revert s0. induction ps as [|p ps IH]; intros s0 Hnd; cbn [fold_left].
  - split; [exact Hnd|]. intros k. split; [auto|]. intros [H|(p & [] & _)]; exact H.
  - assert (Hs : NoDup (set_add (peer_addr_key p) s0) /\
                 forall k, In k (set_add (peer_addr_key p) s0) <-> In k s0 \/ k = peer_addr_key p).
    { unfold set_add. destruct (existsb (bytes_Equal (peer_addr_key p)) s0) eqn:E.
      - apply existsb_exists in E as (x & Hx & Hex). apply bytes_Equal_spec in Hex. subst x.
        split; [exact Hnd|]. intros k. split; [auto|]. intros [H| ->]; auto.
      - split.
        + apply NoDup_app; [exact Hnd|constructor; [intros []|constructor]|].
          intros x Hx [<-|[]]. assert (existsb (bytes_Equal (peer_addr_key p)) s0 = true); [|congruence].
          apply existsb_exists. exists (peer_addr_key p). split; [exact Hx|]. apply bytes_Equal_spec; reflexivity.
        + intros k. rewrite in_app_iff. cbn [In]. intuition. }
    destruct Hs as [Hnd' Hin']. destruct (IH _ Hnd') as [Hnd'' Hin''].
    split; [exact Hnd''|]. intros k. rewrite Hin'', Hin'. split.
    + intros [[H| ->]|(q & Hq & ->)]; eauto 6 using in_eq, in_cons.
    + intros [H|(q & [<-|Hq] & ->)]; eauto 6.
Qed.

Lemma merge_peers_spec (rs : list (fresult (list Z * Z))) (s0 : list (list Z)) (iv0 : Z) :
  NoDup s0 ->
  NoDup (fst (fold_left tracker_merge rs (s0, iv0))) /\
  forall k, In k (fst (fold_left tracker_merge rs (s0, iv0))) <->
    In k s0 \/ exists str i qs q, In (FOk (str, i)) rs /\ ParsePeers str = FOk qs /\
                                  In q qs /\ k = peer_addr_key q.
Proof.
  revert s0 iv0. induction rs as [|r rs IH]; intros s0 iv0 Hnd; cbn [fold_left].
  - split; [exact Hnd|]. intros k. split; [auto|].
    intros [H|(str & i & qs & q & [] & _)]; exact H.
  - destruct r as [[str i]|e]; cbn [tracker_merge].
    2: { destruct (IH s0 iv0 Hnd) as [H1 H2]. split; [exact H1|]. intros k. rewrite H2.
         split; [intros [H|(str & i & qs & q & Hr & Hp & Hq & ->)]; [auto|right; eauto 10 using in_cons]|].
         intros [H|(str & i & qs & q & [Hr|Hr] & Hp & Hq & ->)]; [auto|discriminate|right; eauto 10]. }
    destruct (ParsePeers str) as [ps|e] eqn:Hps.
    + destruct (fold_set_add_spec ps s0 Hnd) as [Hnd1 Hin1].
      destruct (IH _ (if (iv0 =? 0) || (i <? iv0) then i else iv0) Hnd1) as [H1 H2].
      split; [exact H1|]. intros k. rewrite H2, Hin1. split.
      * intros [[H|(p & Hp & ->)]|(str' & i' & qs & q & Hr & Hp & Hq & ->)];
          [auto|right; exists str, i, ps, p; auto using in_eq|right; eauto 10 using in_cons].
      * intros [H|(str' & i' & qs & q & [Hr|Hr] & Hp & Hq & ->)]; [auto| |right; eauto 10].
        injection Hr as <- <-. rewrite Hps in Hp. injection Hp as <-. left; right; eauto.
    + destruct (IH s0 iv0 Hnd) as [H1 H2]. split; [exact H1|]. intros k. rewrite H2.
      split; [intros [H|(str' & i' & qs & q & Hr & Hp & Hq & ->)]; [auto|right; eauto 10 using in_cons]|].
      intros [H|(str' & i' & qs & q & [Hr|Hr] & Hp & Hq & ->)]; [auto| |right; eauto 10].
      injection Hr as <- <-. congruence.
Qed.

Lemma keys_canonical (keys : list (list Z)) :
  Forall (fun k => exists q, (exists b0 b1 b2 b3 p0 p1,
            Forall (fun b => 0 <= b < 256) [b0; b1; b2; b3; p0; p1] /\
            q = mkPeerAddr (format_ip b0 b1 b2 b3) (be_decode [p0; p1])) /\ k = peer_addr_key q) keys ->
  exists qs, keys = map peer_addr_key qs /\
    Forall (fun q => exists b0 b1 b2 b3 p0 p1,
            Forall (fun b => 0 <= b < 256) [b0; b1; b2; b3; p0; p1] /\
            q = mkPeerAddr (format_ip b0 b1 b2 b3) (be_decode [p0; p1])) qs.
Proof.
  induction 1 as [|k keys (q & Hq & ->) _ (qs & -> & Hqs)].
  - exists []. split; [reflexivity|constructor].
  - exists (q :: qs). split; [reflexivity|constructor; assumption].
Qed.

Lemma canonical_key_inj (p q : PeerAddr) :
  (exists b0 b1 b2 b3 p0 p1, Forall (fun b => 0 <= b < 256) [b0; b1; b2; b3; p0; p1] /\
     p = mkPeerAddr (format_ip b0 b1 b2 b3) (be_decode [p0; p1])) ->
  (exists b0 b1 b2 b3 p0 p1, Forall (fun b => 0 <= b < 256) [b0; b1; b2; b3; p0; p1] /\
     q = mkPeerAddr (format_ip b0 b1 b2 b3) (be_decode [p0; p1])) ->
  peer_addr_key p = peer_addr_key q -> p = q.
Proof.
  intros (b0 & b1 & b2 & b3 & p0 & p1 & Hb & ->) (c0 & c1 & c2 & c3 & q0 & q1 & Hc & ->) Hk.
  pose proof (encode_addr_key _ _ _ _ _ _ Hb) as E1.
  pose proof (encode_addr_key _ _ _ _ _ _ Hc) as E2.
  rewrite Hk, E2 in E1. injection E1 as <- <- <- <- <- <-. reflexivity.
Qed.

(** Extra (tracker.go SendTrackerResponse): with byte-valued peer lists and
    any order of the merged peer keys, the response is either the error
    "no peers" (when no successful tracker response parsed to a non-empty peer
    list) or a compact peer list that parses to duplicate-free peers, exactly
    the peers of the successful responses, together with the merged
    interval. *)
Theorem SendTrackerResponse_peers (udpResps httpResps : list (fresult (list Z * Z)))
    (order : list (list Z) -> list (list Z))
    (Hbytes : Forall (fun r => match r with
                               | FOk (str, _) => Forall (fun b => 0 <= b < 256) str
                               | FErr _ => True end) (udpResps ++ httpResps))
    (Horder : forall l, Permutation (order l) l) :
  match SendTrackerResponse_result udpResps httpResps order with
  | FErr e =>
      e = FNoPeers /\
      forall str i qs, In (FOk (str, i)) (udpResps ++ httpResps) -> ParsePeers str = FOk qs -> qs = []
  | FOk (peerBytes, interval) =>
      interval = snd (SendTrackerResponse_merge udpResps httpResps) /\
      exists ps, ParsePeers peerBytes = FOk ps /\ NoDup ps /\
      (forall p, In p ps <-> exists str i qs, In (FOk (str, i)) (udpResps ++ httpResps) /\
                              ParsePeers str = FOk qs /\ In p qs)
  end.
Proof.
  set (rs := udpResps ++ httpResps) in *.
  assert (Hcanon : forall str i qs q, In (FOk (str, i)) rs -> ParsePeers str = FOk qs -> In q qs ->
            exists b0 b1 b2 b3 p0 p1, Forall (fun b => 0 <= b < 256) [b0; b1; b2; b3; p0; p1] /\
              q = mkPeerAddr (format_ip b0 b1 b2 b3) (be_decode [p0; p1])).
  { intros str i qs q Hr Hp Hq. rewrite Forall_forall in Hbytes. specialize (Hbytes _ Hr).
    unfold ParsePeers in Hp. destruct (negb _); [discriminate|]. injection Hp as <-.
    pose proof (parse_peer_loop_canonical str Hbytes) as Hc. rewrite Forall_forall in Hc. auto. }
  unfold SendTrackerResponse_result, SendTrackerResponse_merge. fold rs.
  destruct (merge_peers_spec rs [] 0 (NoDup_nil _)) as [Hnd Hin].
  destruct (fold_left tracker_merge rs ([], 0)) as [allPeers finalInterval] eqn:Hm.
  cbn [fst snd] in *.
  destruct allPeers as [|k0 ks] eqn:Ha.
  - split; [reflexivity|]. intros str i qs Hr Hp. destruct qs as [|q qs]; [reflexivity|].
    exfalso. apply (proj2 (Hin (peer_addr_key q))). right. exists str, i, (q :: qs), q.
    auto using in_eq.
  - rewrite <- Ha in *. split; [reflexivity|].
    assert (Hk : Forall (fun k => exists q, (exists b0 b1 b2 b3 p0 p1,
            Forall (fun b => 0 <= b < 256) [b0; b1; b2; b3; p0; p1] /\
            q = mkPeerAddr (format_ip b0 b1 b2 b3) (be_decode [p0; p1])) /\ k = peer_addr_key q)
                 (order allPeers)).
    { rewrite Forall_forall. intros k Hk. apply (Permutation_in _ (Horder allPeers)) in Hk.
      apply Hin in Hk as [[]|(str & i & qs & q & Hr & Hp & Hq & ->)].
      exists q. split; [eapply Hcanon; eauto|reflexivity]. }
    destruct (keys_canonical _ Hk) as (qs & Hkeys & Hqs).
    exists qs. rewrite Hkeys.
    assert (Hlen : Z.of_nat (List.length (encode_addrs (map peer_addr_key qs))) mod 6 = 0).
    { clear -Hqs. induction Hqs as [|q qs (b0 & b1 & b2 & b3 & p0 & p1 & Hb & ->) _ IH];
        [reflexivity|].
      unfold encode_addrs in *. cbn [map flat_map]. rewrite encode_addr_key by exact Hb.
      rewrite length_app. cbn [List.length]. rewrite Nat2Z.inj_add.
      rewrite Zplus_mod, IH. reflexivity. }
    unfold ParsePeers. apply Z.eqb_eq in Hlen. rewrite Hlen. cbn [negb].
    rewrite encode_parse_canonical by exact Hqs.
    split; [reflexivity|].
    assert (Hperm : Permutation (map peer_addr_key qs) allPeers) by (rewrite <- Hkeys; apply Horder).
    split.
    + apply (NoDup_map_inv peer_addr_key). eapply Permutation_NoDup; [symmetry; exact Hperm|exact Hnd].
    + intros p. split.
      * intros Hp. assert (Hpk : In (peer_addr_key p) allPeers)
          by (apply (Permutation_in _ Hperm); apply in_map; exact Hp).
        apply Hin in Hpk as [[]|(str & i & qs' & q & Hr & Hps & Hq & Hkq)].
        exists str, i, qs'. split; [exact Hr|]. split; [exact Hps|].
        replace p with q; [exact Hq|]. symmetry. apply canonical_key_inj; [| |exact Hkq].
        { rewrite Forall_forall in Hqs. auto. }
        { eapply Hcanon; eauto. }
      * intros (str & i & qs' & Hr & Hps & Hq).
        assert (Hpk : In (peer_addr_key p) allPeers) by (apply Hin; right; eauto 10).
        apply (Permutation_in _ (Permutation_sym Hperm)) in Hpk.
        apply in_map_iff in Hpk as (q & Hkq & Hq').
        replace p with q; [exact Hq'|]. apply canonical_key_inj; [| |exact Hkq].
        { rewrite Forall_forall in Hqs. auto. }
        { eapply Hcanon; eauto. }
Qed.

Lemma merge_interval_spec (rs : list (fresult (list Z * Z))) (s0 : list (list Z)) (iv0 : Z) :
  0 <= iv0 ->
  (forall str i, In (FOk (str, i)) rs -> 0 < i) ->
  let iv := snd (fold_left tracker_merge rs (s0, iv0)) in
  (iv = 0 <-> iv0 = 0 /\ forall str i qs, In (FOk (str, i)) rs -> ParsePeers str <> FOk qs) /\
  (forall str i qs, In (FOk (str, i)) rs -> ParsePeers str = FOk qs -> iv <= i) /\
  (iv0 <> 0 -> iv <= iv0) /\
  (iv <> 0 -> iv = iv0 \/ exists str qs, In (FOk (str, iv)) rs /\ ParsePeers str = FOk qs).
Proof.
  revert s0 iv0. induction rs as [|r rs IH]; intros s0 iv0 Hiv0 Hpos; cbn [fold_left snd].
  - split; [split; [auto|intros [H _]; exact H]|]. split; [intros ? ? ? []|]. split; [lia|]. auto.
  - assert (Hpos' : forall str i, In (FOk (str, i)) rs -> 0 < i) by eauto using in_cons.
    destruct r as [[str i]|e]; cbn [tracker_merge].
    2: { destruct (IH s0 iv0 Hiv0 Hpos') as (A & B & C & D). cbn zeta in *.
         split; [|split; [|split; [exact C|]]].
         - rewrite A. split; intros [H1 H2]; split; auto.
           + intros str i qs [Hr|Hr]; [discriminate|eauto].
           + intros str i qs Hr. apply (H2 str i qs). right; exact Hr.
         - intros str i qs [Hr|Hr] Hp; [discriminate|eauto].
         - intros Hne. destruct (D Hne) as [H|(str & qs & Hr & Hp)]; [auto|right; eauto 6 using in_cons]. }
    assert (Hi : 0 < i) by (apply (Hpos str i); left; reflexivity).
    destruct (ParsePeers str) as [ps|e] eqn:Hps.
    + set (iv1 := if (iv0 =? 0) || (i <? iv0) then i else iv0).
      assert (Hiv1 : 0 < iv1 /\ iv1 <= i /\ (iv0 <> 0 -> iv1 <= iv0) /\ (iv1 = i \/ iv1 = iv0)).
      { unfold iv1. destruct (iv0 =? 0) eqn:E0; cbn [orb].
        - apply Z.eqb_eq in E0. lia.
        - apply Z.eqb_neq in E0. destruct (i <? iv0) eqn:E1; [apply Z.ltb_lt in E1|apply Z.ltb_ge in E1]; lia. }
      destruct (IH (fold_left (fun s p => set_add (peer_addr_key p) s) ps s0) iv1 ltac:(lia) Hpos')
        as (A & B & C & D). cbn zeta in *.
      set (iv := snd (fold_left tracker_merge rs (fold_left (fun s p => set_add (peer_addr_key p) s) ps s0, iv1))) in *.
      assert (Hle : iv <= iv1) by (apply C; lia).
      assert (Hivpos : iv <> 0) by (intros H; apply A in H; lia).
      split; [|split; [|split]].
      * split; [intros H; lia|]. intros [_ H2]. exfalso. apply (H2 str i ps); [left; reflexivity|exact Hps].
      * intros str' i' qs [Hr|Hr] Hp; [injection Hr as <- <-; lia|eauto].
      * intros H. lia.
      * intros _. destruct (D Hivpos) as [H|(str' & qs & Hr & Hp)]; [|right; eauto 6 using in_cons].
        destruct Hiv1 as (_ & _ & _ & [H1|H1]); [|left; lia].
        right. exists str, ps. split; [left; congruence|exact Hps].
    + destruct (IH s0 iv0 Hiv0 Hpos') as (A & B & C & D). cbn zeta in *.
      split; [|split; [|split; [exact C|]]].
      * rewrite A. split; intros [H1 H2]; split; auto.
        -- intros str' i' qs [Hr|Hr]; [injection Hr as <- <-; congruence|eauto].
        -- intros str' i' qs Hr. apply (H2 str' i' qs). right; exact Hr.
      * intros str' i' qs [Hr|Hr] Hp; [injection Hr as <- <-; congruence|eauto].
      * intros Hne. destruct (D Hne) as [H|(str' & qs & Hr & Hp)]; [auto|right; eauto 6 using in_cons].
Qed.

(** Extra (tracker.go SendTrackerResponse): when every successful tracker
    response has a positive interval, the merged interval is 0 exactly when no
    response parsed, is at most the interval of every response that parsed, and
    otherwise is the interval of one of them. *)
Theorem SendTrackerResponse_interval (udpResps httpResps : list (fresult (list Z * Z)))
    (Hpos : forall str i, In (FOk (str, i)) (udpResps ++ httpResps) -> 0 < i) :
  let finalInterval := snd (SendTrackerResponse_merge udpResps httpResps) in
  (finalInterval = 0 <->
   forall str i qs, In (FOk (str, i)) (udpResps ++ httpResps) -> ParsePeers str <> FOk qs) /\
  (forall str i qs, In (FOk (str, i)) (udpResps ++ httpResps) -> ParsePeers str = FOk qs ->
   finalInterval <= i) /\
  (finalInterval <> 0 -> exists str qs, In (FOk (str, finalInterval)) (udpResps ++ httpResps) /\
                                        ParsePeers str = FOk qs).
Proof.
  unfold SendTrackerResponse_merge.
  destruct (merge_interval_spec (udpResps ++ httpResps) [] 0 ltac:(lia) Hpos) as (A & B & _ & D).
  cbn zeta in *. split; [|split; [exact B|]].
  - rewrite A. split; [intros [_ H]; exact H|intros H; split; [reflexivity|exact H]].
  - intros Hne. destruct (D Hne) as [H|H]; [congruence|exact H].
Qed.

Lemma connect_loop_gen (fuel : nat) (attempt transactionID : Z) (io : Z -> ConnectIO) :
  let '(tr, r) := connect_loop fuel attempt transactionID io in
  tr = map (fun j => (5 + (attempt + Z.of_nat j) * 2, connect_request transactionID))
           (seq 0 (List.length tr)) /\
  (forall j, 0 <= j < Z.of_nat (List.length tr) - 1 ->
     match io (attempt + j) with
     | ConnRead d => (List.length (firstn 16 d) < 16)%nat | _ => True end) /\
  match r with
  | None => List.length tr = fuel /\
      (fuel <> O -> match io (attempt + Z.of_nat fuel - 1) with
                    | ConnRead d => (List.length (firstn 16 d) < 16)%nat | _ => True end)
  | Some res =>
      (1 <= List.length tr <= fuel)%nat /\
      exists d, io (attempt + Z.of_nat (List.length tr) - 1) = ConnRead d /\
        (List.length (firstn 16 d) = 16)%nat /\
        res = (if negb (be_decode (slice 0 4 (firstn 16 d)) =? 0)
               then FErr (FConnectAction (be_decode (slice 0 4 (firstn 16 d))))
               else if negb (be_decode (slice 4 8 (firstn 16 d)) =? transactionID)
               then FErr FTransactionID
               else FOk (be_decode (slice 8 16 (firstn 16 d))))
  end.
Proof.
  revert attempt. induction fuel as [|f IH]; intros attempt.
  - cbn. split; [reflexivity|]. split; [intros j Hj; lia|]. split; [reflexivity|]. intros H; congruence.
  - cbn [connect_loop].
    pose proof (IH (attempt + 1)) as IHa.
    destruct (connect_loop f (attempt + 1) transactionID io) as [tr r] eqn:Hrec.
    destruct IHa as (Htr & Hretry & Hr).
    assert (Hstep :
      (5 + attempt * 2, connect_request transactionID) :: tr =
      map (fun j => (5 + (attempt + Z.of_nat j) * 2, connect_request transactionID))
          (seq 0 (List.length ((5 + attempt * 2, connect_request transactionID) :: tr)))).
    { cbn [List.length seq map]. rewrite <- seq_shift, map_map. f_equal; [f_equal; lia|].
      etransitivity; [exact Htr|]. apply map_ext. intros j. f_equal. lia. }
    assert (Hretry' : forall (x : ConnectIO),
      io attempt = x ->
      match x with ConnRead d => (List.length (firstn 16 d) < 16)%nat | _ => True end ->
      forall j, 0 <= j < Z.of_nat (List.length ((5 + attempt * 2, connect_request transactionID) :: tr)) - 1 ->
      match io (attempt + j) with
      | ConnRead d => (List.length (firstn 16 d) < 16)%nat | _ => True end).
    { intros x Hx Hxr j Hj. cbn [List.length] in Hj.
      destruct (Z.eq_dec j 0) as [->|Hj0]; [rewrite Z.add_0_r, Hx; exact Hxr|].
      specialize (Hretry (j - 1) ltac:(lia)). replace (attempt + 1 + (j - 1)) with (attempt + j) in Hretry by lia.
      exact Hretry. }
    assert (Hrest : forall (x : ConnectIO), io attempt = x ->
      match x with ConnRead d => (List.length (firstn 16 d) < 16)%nat | _ => True end ->
      let '(tr', r') := ((5 + attempt * 2, connect_request transactionID) :: tr, r) in
      tr' = map (fun j => (5 + (attempt + Z.of_nat j) * 2, connect_request transactionID))
           (seq 0 (List.length tr')) /\
      (forall j, 0 <= j < Z.of_nat (List.length tr') - 1 ->
         match io (attempt + j) with
         | ConnRead d => (List.length (firstn 16 d) < 16)%nat | _ => True end) /\
      match r' with
      | None => List.length tr' = S f /\
          (S f <> O -> match io (attempt + Z.of_nat (S f) - 1) with
                        | ConnRead d => (List.length (firstn 16 d) < 16)%nat | _ => True end)
      | Some res =>
          (1 <= List.length tr' <= S f)%nat /\
          exists d, io (attempt + Z.of_nat (List.length tr') - 1) = ConnRead d /\
            (List.length (firstn 16 d) = 16)%nat /\
            res = (if negb (be_decode (slice 0 4 (firstn 16 d)) =? 0)
                   then FErr (FConnectAction (be_decode (slice 0 4 (firstn 16 d))))
                   else if negb (be_decode (slice 4 8 (firstn 16 d)) =? transactionID)
                   then FErr FTransactionID
                   else FOk (be_decode (slice 8 16 (firstn 16 d))))
      end).
    { intros x Hx Hxr. split; [exact Hstep|]. split; [exact (Hretry' x Hx Hxr)|].
      destruct r as [res|].
      - destruct Hr as (Hl & d & Hd & Hd16 & Hres). cbn [List.length]. split; [lia|].
        exists d. replace (attempt + Z.of_nat (S (List.length tr)) - 1)
          with (attempt + 1 + Z.of_nat (List.length tr) - 1) by lia. auto.
      - destruct Hr as (Hl & Hlast). cbn [List.length]. split; [lia|]. intros _.
        destruct f as [|f'].
        + replace (attempt + Z.of_nat 1 - 1) with attempt by lia. rewrite Hx. exact Hxr.
        + replace (attempt + Z.of_nat (S (S f')) - 1) with (attempt + 1 + Z.of_nat (S f') - 1) by lia.
          apply Hlast. discriminate. }
    destruct (io attempt) as [| |d] eqn:Ea.
    + exact (Hrest ConnWriteErr eq_refl I).
    + exact (Hrest ConnReadErr eq_refl I).
    + destruct (List.length (firstn 16 d) <? 16)%nat eqn:Ld.
      * apply Nat.ltb_lt in Ld. exact (Hrest (ConnRead d) eq_refl Ld).
      * apply Nat.ltb_ge in Ld.
        assert (Hd16 : List.length (firstn 16 d) = 16%nat) by (rewrite length_firstn in *; lia).
        assert (Hone : [(5 + attempt * 2, connect_request transactionID)] =
          map (fun j => (5 + (attempt + Z.of_nat j) * 2, connect_request transactionID)) (seq 0 1)).
        { cbn [seq map Z.of_nat]. rewrite Z.add_0_r. reflexivity. }
        cbv zeta.
        destruct (negb (be_decode (slice 0 4 (firstn 16 d)) =? 0)) eqn:A1;
        [|destruct (negb (be_decode (slice 4 8 (firstn 16 d)) =? transactionID)) eqn:A2];
        (split; [exact Hone|]; split; [cbn [List.length]; intros j Hj; lia|];
         split; [cbn [List.length]; lia|]; exists d; cbn [List.length];
         replace (attempt + Z.of_nat 1 - 1) with attempt by lia; split; [exact Ea|];
         split; [exact Hd16|]; rewrite ?A1, ?A2; reflexivity).
Qed.

(** Extra (tracker.go SendUDPTrackerRequest, connect phase): the connect
    request is sent one to three times, the j-th time with a read deadline of
    5 + 2j seconds, a retry happens only after a reply shorter than 16 bytes,
    and a full reply is checked for action 0 and the transaction ID before its
    connection ID is taken. *)
Theorem connect_phase_spec (transactionID : Z) (io : Z -> ConnectIO) :
  let '(tr, r) := connect_loop 3 0 transactionID io in
  (1 <= List.length tr <= 3)%nat /\
  tr = map (fun j => (5 + Z.of_nat j * 2, connect_request transactionID)) (seq 0 (List.length tr)) /\
  (forall j, 0 <= j < Z.of_nat (List.length tr) - 1 ->
     match io j with ConnRead d => (List.length (firstn 16 d) < 16)%nat | _ => True end) /\
  match r with
  | None => List.length tr = 3%nat /\
      match io 2 with ConnRead d => (List.length (firstn 16 d) < 16)%nat | _ => True end
  | Some res =>
      exists d, io (Z.of_nat (List.length tr) - 1) = ConnRead d /\
        (List.length (firstn 16 d) = 16)%nat /\
        res = (if negb (be_decode (slice 0 4 (firstn 16 d)) =? 0)
               then FErr (FConnectAction (be_decode (slice 0 4 (firstn 16 d))))
               else if negb (be_decode (slice 4 8 (firstn 16 d)) =? transactionID)
               then FErr FTransactionID
               else FOk (be_decode (slice 8 16 (firstn 16 d))))
  end.
Proof.
  pose proof (connect_loop_gen 3 0 transactionID io) as G.
  destruct (connect_loop 3 0 transactionID io) as [tr r].
  destruct G as (Htr & Hretry & Hr).
  assert (Hl : (1 <= List.length tr <= 3)%nat)
    by (destruct r; [lia|destruct Hr as [-> _]; lia]).
  split; [exact Hl|]. split; [exact Htr|]. split; [exact Hretry|].
  destruct r as [res|].
  - destruct Hr as (_ & d & Hd & H16 & Hres). exists d. rewrite Z.add_0_l in Hd. auto.
  - destruct Hr as (H3 & Hlast). split; [exact H3|]. apply Hlast. discriminate.
Qed.

(** Extra (tracker.go SendUDPTrackerRequest): a successful request had a
    16-byte connect reply with action 0 and our transaction ID, sent the
    announce request built from its connection ID, and got an announce reply
    of at least 20 bytes with action 1 and our transaction ID; the result is
    the reply's interval and its peer bytes, which parse as a peer list. *)
Theorem SendUDPTrackerRequest_success (info : TorrentInfo) (transactionID : Z)
    (infoHash peerID : list Z) (key : Z) (cio : Z -> ConnectIO) (aio : AnnounceIO)
    (tr : list (Z * list Z)) (peers : list Z) (interval : Z)
    (Hok : SendUDPTrackerRequest info transactionID infoHash peerID key cio aio
           = (tr, FOk (peers, interval))) :
  exists k d datagram,
    (1 <= k <= 3)%nat /\
    cio (Z.of_nat k - 1) = ConnRead d /\ (List.length (firstn 16 d) = 16)%nat /\
    be_decode (slice 0 4 (firstn 16 d)) = 0 /\
    be_decode (slice 4 8 (firstn 16 d)) = transactionID /\
    tr = map (fun j => (5 + Z.of_nat j * 2, connect_request transactionID)) (seq 0 k)
         ++ [(5, CreateAnnounceRequest (be_decode (slice 8 16 (firstn 16 d))) 1 transactionID
                   infoHash peerID 0 (GetTotalSize info) 0 2 0 key (-1) 6881)] /\
    aio = AnnRead datagram /\
    let resp := firstn 1024 datagram in
    (20 <= List.length resp)%nat /\
    be_decode (slice 0 4 resp) = 1 /\
    be_decode (slice 4 8 resp) = transactionID /\
    interval = be_decode (slice 8 12 resp) /\
    peers = skipn 20 resp /\
    exists ps, ParsePeers peers = FOk ps /\ List.length ps = (List.length peers / 6)%nat.
Proof.
  pose proof (connect_phase_spec transactionID cio) as G.
  unfold SendUDPTrackerRequest in Hok.
  destruct (connect_loop 3 0 transactionID cio) as [tr0 r] eqn:Hc.
  destruct G as (Hl & Htr & _ & Hr).
  destruct r as [[connectionID|e]|]; [|discriminate|discriminate].
  destruct Hr as (d & Hd & H16 & Hres).
  destruct (negb (be_decode (slice 0 4 (firstn 16 d)) =? 0)) eqn:A1; [discriminate|].
  destruct (negb (be_decode (slice 4 8 (firstn 16 d)) =? transactionID)) eqn:A2; [discriminate|].
  injection Hres as ->.
  apply negb_false_iff, Z.eqb_eq in A1. apply negb_false_iff, Z.eqb_eq in A2.
  unfold announce_exchange in Hok.
  destruct aio as [| |datagram]; [discriminate|discriminate|].
  cbv zeta in Hok.
  destruct (List.length (firstn 1024 datagram) <? 20)%nat eqn:L; [discriminate|].
  apply Nat.ltb_ge in L.
  destruct (be_decode (slice 0 4 (firstn 1024 datagram)) =? 3) eqn:A3; [discriminate|].
  destruct (negb (be_decode (slice 0 4 (firstn 1024 datagram)) =? 1)) eqn:A4; [discriminate|].
  destruct (negb (be_decode (slice 4 8 (firstn 1024 datagram)) =? transactionID)) eqn:A5;
    [discriminate|].
  destruct (negb (Z.of_nat (List.length (slice 20 (List.length (firstn 1024 datagram))
                                           (firstn 1024 datagram))) mod 6 =? 0)) eqn:A6;
    [discriminate|].
  injection Hok as <- <- <-.
  apply negb_false_iff, Z.eqb_eq in A4. apply negb_false_iff, Z.eqb_eq in A5.
  apply negb_false_iff, Z.eqb_eq in A6.
  assert (Hsl : slice 20 (List.length (firstn 1024 datagram)) (firstn 1024 datagram)
                = skipn 20 (firstn 1024 datagram)).
  { unfold slice. apply firstn_all2. rewrite length_skipn. lia. }
  exists (List.length tr0), d, datagram.
  split; [exact Hl|]. split; [exact Hd|]. split; [exact H16|]. split; [exact A1|].
  split; [exact A2|]. split; [rewrite <- Htr; reflexivity|].
  split; [reflexivity|]. intros resp; subst resp. split; [exact L|]. split; [exact A4|]. split; [exact A5|].
  split; [reflexivity|]. split; [exact Hsl|].
  rewrite Hsl in A6. destruct (parse_peers_shape (skipn 20 (firstn 1024 datagram))) as [_ P].
  destruct (P A6) as (ps & Hps & Hlen & _). exists ps. rewrite <- Hsl in Hps, Hlen. split; [exact Hps|exact Hlen].
Qed.

Lemma firstn_add_skipn {A} (a b : nat) (l : list A) :
  firstn (a + b) l = firstn a l ++ firstn b (skipn a l).
Proof.
  revert l. induction a as [|a IH]; intros l; [reflexivity|].
  destruct l as [|x l]; [rewrite !firstn_nil; reflexivity|]. cbn. f_equal. apply IH.
Qed.

Lemma piece_hashes_loop_map (n i : nat) (pieces : list Z) :
  piece_hashes_loop n i pieces = map (fun k => slice (k * 20) ((k + 1) * 20) pieces) (seq i n).
Proof. revert i. induction n as [|n IH]; intros i; cbn; [reflexivity|]. f_equal. apply IH. Qed.

Lemma concat_slices (n i : nat) (pieces : list Z) :
  List.concat (map (fun k => slice (k * 20) ((k + 1) * 20) pieces) (seq i n))
  = firstn (20 * n) (skipn (20 * i) pieces).
Proof.
  revert i. induction n as [|n IH]; intros i; [rewrite Nat.mul_0_r; reflexivity|].
  cbn [seq map List.concat]. rewrite IH.
  replace (20 * S n)%nat with (20 + 20 * n)%nat by lia. rewrite firstn_add_skipn.
  rewrite skipn_skipn. replace (20 + 20 * i)%nat with (20 * S i)%nat by lia.
  unfold slice. replace ((i + 1) * 20 - i * 20)%nat with 20%nat by lia.
  replace (i * 20)%nat with (20 * i)%nat by lia. reflexivity.
Qed.

(** Extra (p2p.go InitializePieces): a pieces string whose length is not a
    multiple of 20 is rejected; otherwise it is cut into NumPieces hashes of
    20 bytes each, which concatenate back to it, the i-th being PieceHash i,
    and no piece is marked downloaded. *)
Theorem InitializePieces_spec (info : TorrentInfo) :
  let pieces := Info_Pieces info in
  (Z.of_nat (List.length pieces) mod 20 <> 0 ->
   InitializePieces pieces = FErr (FPiecesLength (Z.of_nat (List.length pieces)))) /\
  (Z.of_nat (List.length pieces) mod 20 = 0 ->
   exists hashes, InitializePieces pieces = FOk (hashes, repeat false (Z.to_nat (NumPieces info))) /\
   Z.of_nat (List.length hashes) = NumPieces info /\
   Forall (fun h => List.length h = 20%nat) hashes /\
   List.concat hashes = pieces /\
   forall i, (i < List.length hashes)%nat -> nth_error hashes i = Some (PieceHash info i)).
Proof.
  cbv zeta. unfold InitializePieces. split; intros H.
  - apply Z.eqb_neq in H. rewrite H. reflexivity.
  - rewrite H. cbn [negb Z.eqb].
    set (pieces := Info_Pieces info).
    assert (Hm : (List.length pieces mod 20 = 0)%nat).
    { apply Nat2Z.inj. rewrite Nat2Z.inj_mod. exact H. }
    assert (Hn : Z.to_nat (NumPieces info) = (List.length pieces / 20)%nat).
    { unfold NumPieces. fold pieces. rewrite <- (Nat2Z.id (List.length pieces / 20)).
      f_equal. rewrite Nat2Z.inj_div. reflexivity. }
    assert (Hl : List.length pieces = (20 * (List.length pieces / 20))%nat).
    { rewrite (Nat.div_mod_eq (List.length pieces) 20) at 1. lia. }
    exists (piece_hashes_loop (List.length pieces / 20) 0 pieces).
    rewrite Hn. split; [reflexivity|].
    rewrite piece_hashes_loop_map, length_map, length_seq.
    split; [rewrite <- Hn; apply Z2Nat.id; unfold NumPieces; apply Z.div_pos; lia|].
    split; [|split].
    + apply Forall_forall. intros h Hh. apply in_map_iff in Hh as (k & <- & Hk).
      apply in_seq in Hk. unfold slice. rewrite length_firstn, length_skipn. lia.
    + rewrite concat_slices, Nat.mul_0_r, skipn_O, <- Hl. apply firstn_all.
    + intros i Hi. rewrite nth_error_map, nth_error_seq.
      destruct (Nat.ltb_spec i (List.length pieces / 20)); [|lia]. reflexivity.
Qed.

Lemma blockSize_val : blockSize = 16384.
Proof. reflexivity. Qed.

Lemma block_requests_gen (r fuel : nat) (pieceIndex : nat) (k : nat) (L : Z) :
  (r <= fuel)%nat ->
  L - Z.of_nat k * blockSize <= Z.of_nat r * blockSize ->
  (r = O \/ (Z.of_nat r - 1) * blockSize < L - Z.of_nat k * blockSize) ->
  block_requests fuel pieceIndex (Z.of_nat k * blockSize) L =
  map (fun j => mkMessage Request (be_encode 4 (Z.of_nat pieceIndex)
                  ++ be_encode 4 (Z.of_nat j * blockSize)
                  ++ be_encode 4 (Z.min (L - Z.of_nat j * blockSize) blockSize)))
      (seq k r).
Proof.
  rewrite blockSize_val.
  revert fuel k. induction r as [|r IH]; intros fuel k Hf Hup Hlow.
  - cbn [seq map]. destruct fuel; cbn [block_requests]; [reflexivity|].
    replace (Z.of_nat k * 16384 <? L) with false by lia. reflexivity.
  - destruct fuel as [|f]; [lia|]. cbn [block_requests seq map].
    destruct Hlow as [Hlow|Hlow]; [discriminate|].
    replace (Z.of_nat k * 16384 <? L) with true by lia.
    rewrite blockSize_val. f_equal.
    replace (Z.of_nat k * 16384 + 16384) with (Z.of_nat (S k) * 16384) by lia.
    apply IH; lia.
Qed.

Lemma block_sizes_sum (r k : nat) (L : Z) :
  L - Z.of_nat k * blockSize <= Z.of_nat r * blockSize ->
  (r = O \/ (Z.of_nat r - 1) * blockSize < L - Z.of_nat k * blockSize) ->
  0 <= L - Z.of_nat k * blockSize ->
  fold_right Z.add 0 (map (fun j => Z.min (L - Z.of_nat j * blockSize) blockSize) (seq k r))
  = L - Z.of_nat k * blockSize.
Proof.
  rewrite blockSize_val. revert k. induction r as [|r IH]; intros k Hup Hlow Hpos.
  - cbn. lia.
  - cbn [seq map fold_right]. destruct Hlow as [Hlow|Hlow]; [discriminate|].
    destruct r as [|r'].
    + cbn. lia.
    + rewrite IH by lia. lia.
Qed.

(** Extra (p2p.go DownloadFromPeer, block loop): the requests for a piece
    are one per block, in order, each with a length between 1 and blockSize,
    and the block lengths add up to the piece length. *)
Theorem piece_requests_tiling (pieceIndex : nat) (pieceLength : Z) (Hlen : 0 <= pieceLength) :
  let n := Z.to_nat ((pieceLength + blockSize - 1) / blockSize) in
  piece_requests pieceIndex pieceLength =
  map (fun j => mkMessage Request (be_encode 4 (Z.of_nat pieceIndex)
                  ++ be_encode 4 (Z.of_nat j * blockSize)
                  ++ be_encode 4 (Z.min (pieceLength - Z.of_nat j * blockSize) blockSize)))
      (seq 0 n) /\
  Forall (fun j => 0 < Z.min (pieceLength - Z.of_nat j * blockSize) blockSize <= blockSize)
         (seq 0 n) /\
  fold_right Z.add 0 (map (fun j => Z.min (pieceLength - Z.of_nat j * blockSize) blockSize)
                          (seq 0 n)) = pieceLength.
Proof.
  cbv zeta. rewrite blockSize_val.
  set (n := Z.to_nat ((pieceLength + 16384 - 1) / 16384)).
  assert (Hq : 0 <= (pieceLength + 16384 - 1) / 16384) by (apply Z.div_pos; lia).
  assert (Hn : Z.of_nat n = (pieceLength + 16384 - 1) / 16384) by (apply Z2Nat.id; exact Hq).
  assert (Hd := Z.div_mod (pieceLength + 16384 - 1) 16384 ltac:(lia)).
  assert (Hm := Z.mod_pos_bound (pieceLength + 16384 - 1) 16384 ltac:(lia)).
  assert (Hup : pieceLength <= Z.of_nat n * 16384) by lia.
  assert (Hlow : n = O \/ (Z.of_nat n - 1) * 16384 < pieceLength)
    by (destruct (Nat.eq_dec n 0); [left; assumption|right; lia]).
  split; [|split].
  - unfold piece_requests. rewrite <- blockSize_val.
    change 0 with (Z.of_nat 0 * blockSize) at 1.
    apply block_requests_gen; rewrite ?blockSize_val; try lia.
  - apply Forall_forall. intros j Hj. apply in_seq in Hj. lia.
  - rewrite <- blockSize_val. pose proof (block_sizes_sum n 0 pieceLength) as S.
    rewrite blockSize_val in *. rewrite S by lia. lia.
Qed.

Lemma select_from_gen (k : nat) (Downloaded : list bool) (bf : option (list Z)) :
  match select_from k Downloaded bf with
  | Some i => (k <= i)%nat /\ nth_error Downloaded (i - k) = Some false /\
      HasPiece bf (Z.of_nat i) = Some true /\
      forall j, (k <= j < i)%nat -> ~ (nth_error Downloaded (j - k) = Some false /\
                                      HasPiece bf (Z.of_nat j) = Some true)
  | None => forall j, (k <= j < k + List.length Downloaded)%nat ->
      ~ (nth_error Downloaded (j - k) = Some false /\ HasPiece bf (Z.of_nat j) = Some true)
  end.
Proof.
  revert k. induction Downloaded as [|d D IH]; intros k; cbn [select_from].
  - intros j Hj. cbn in Hj. lia.
  - destruct (negb d && match HasPiece bf (Z.of_nat k) with Some b => b | None => false end) eqn:E.
    + apply andb_true_iff in E as [Ed Eh]. destruct d; [discriminate|].
      destruct (HasPiece bf (Z.of_nat k)) as [[|]|] eqn:Hh; try discriminate.
      rewrite Nat.sub_diag. split; [lia|]. split; [reflexivity|]. split; [reflexivity|].
      intros j Hj. lia.
    + assert (Hk : ~ (d = false /\ HasPiece bf (Z.of_nat k) = Some true)).
      { intros [-> Hh]. rewrite Hh in E. discriminate. }
      specialize (IH (S k)). destruct (select_from (S k) D bf) as [i|].
      * destruct IH as (Hle & Hn & Hh & Hmin).
        split; [lia|]. replace (i - k)%nat with (S (i - S k)) by lia. split; [exact Hn|].
        split; [exact Hh|]. intros j Hj [Hj1 Hj2].
        destruct (Nat.eq_dec j k) as [->|Hne].
        -- rewrite Nat.sub_diag in Hj1. injection Hj1 as Hd. auto.
        -- apply (Hmin j); [lia|]. replace (j - k)%nat with (S (j - S k)) in Hj1 by lia. auto.
      * intros j Hj [Hj1 Hj2]. cbn [List.length] in Hj.
        destruct (Nat.eq_dec j k) as [->|Hne].
        -- rewrite Nat.sub_diag in Hj1. injection Hj1 as Hd. auto.
        -- apply (IH j); [lia|]. replace (j - k)%nat with (S (j - S k)) in Hj1 by lia. auto.
Qed.

(** Extra (p2p.go DownloadFromPeer, piece selection): the scan picks the
    lowest index that is not downloaded and that the peer's bitfield has, and
    picks nothing exactly when no such index exists. *)
Theorem select_from_lowest (Downloaded : list bool) (bf : option (list Z)) :
  match select_from 0 Downloaded bf with
  | Some i => nth_error Downloaded i = Some false /\ HasPiece bf (Z.of_nat i) = Some true /\
      forall j, (j < i)%nat -> ~ (nth_error Downloaded j = Some false /\
                                  HasPiece bf (Z.of_nat j) = Some true)
  | None => forall j, ~ (nth_error Downloaded j = Some false /\ HasPiece bf (Z.of_nat j) = Some true)
  end.
Proof.
  pose proof (select_from_gen 0 Downloaded bf) as G.
  destruct (select_from 0 Downloaded bf) as [i|].
  - destruct G as (_ & Hn & Hh & Hmin). rewrite Nat.sub_0_r in Hn.
    split; [exact Hn|]. split; [exact Hh|]. intros j Hj. specialize (Hmin j ltac:(lia)).
    rewrite Nat.sub_0_r in Hmin. exact Hmin.
  - intros j [Hj1 Hj2]. destruct (Nat.lt_ge_cases j (List.length Downloaded)) as [Hlt|Hge].
    + apply (G j); [lia|]. rewrite Nat.sub_0_r. auto.
    + apply nth_error_None in Hge. congruence.
Qed.

(** Extra (utils.go GeneratePeerID): from 12 random bytes the peer ID is
    20 bytes: the prefix "-GT0001-" followed by 12 characters drawn from the
    digits and the lowercase letters other than w. *)
Theorem GeneratePeerID_format (randomBytes : list Z) (Hlen : List.length randomBytes = 12%nat) :
  let id := GeneratePeerID randomBytes in
  List.length id = 20%nat /\
  firstn 8 id = bytes_of_string "-GT0001-" /\
  Forall (fun c => (48 <= c <= 57) \/ (97 <= c <= 122 /\ c <> 119)) (skipn 8 id).
Proof.
  cbv zeta. unfold GeneratePeerID.
  assert (Hp : List.length (bytes_of_string "-GT0001-") = 8%nat) by reflexivity.
  split; [|split].
  - rewrite length_app, length_map, Hp, Hlen. reflexivity.
  - rewrite firstn_app, Hp, Nat.sub_diag, firstn_O, app_nil_r. apply firstn_all2. lia.
  - rewrite skipn_app, Hp, Nat.sub_diag, skipn_O, skipn_all2 by lia. cbn [app].
    apply Forall_forall. intros c Hc. apply in_map_iff in Hc as (b & <- & _).
    assert (Hb : 0 <= b mod Z.of_nat (List.length peer_id_chars) < 35)
      by (apply Z.mod_pos_bound; reflexivity).
    set (m := b mod Z.of_nat (List.length peer_id_chars)) in *.
    assert (Hall : forall x, 0 <= x < 35 ->
      let c := nth (Z.to_nat x) peer_id_chars 0 in
      (48 <= c <= 57) \/ (97 <= c <= 122 /\ c <> 119)).
    { intros x Hx. cbv zeta.
      assert (Hx' : (Z.to_nat x < 35)%nat) by lia.
      remember (Z.to_nat x) as y. clear -Hx'.
      do 35 (destruct y as [|y]; [cbn; lia|]). lia. }
    apply Hall. exact Hb.
Qed.

Lemma wrap64_small (x : Z) : - 2 ^ 63 <= x < 2 ^ 63 -> wrap64 x = x.
Proof. intros H. unfold wrap64. rewrite Z.mod_small by lia. lia. Qed.




Lemma copy_array_full (n : nat) (l : list Z) :
  List.length l = n -> copy_array n l = l.
Proof.
  intros H. unfold copy_array. subst n. rewrite firstn_all, Nat.sub_diag, app_nil_r. reflexivity.
Qed.

(** Extra (p2p.go PerformHandshake): a peer reply that is a well-formed
    handshake carrying our info hash is accepted, its peer ID returned and the
    peer recorded as connected; with another info hash the handshake fails and
    the connection is closed. *)
Theorem handshake_roundtrip (infoHash peerInfoHash peerID : list Z) (ip : string) (port : Z)
    (rest : list Z) (st : HandshakeState)
    (Hpih : List.length peerInfoHash = 20%nat) (Hpid : List.length peerID = 20%nat) :
  PerformHandshake_reply infoHash ip port (handshake_bytes peerInfoHash peerID ++ rest) st =
  if bytes_Equal peerInfoHash infoHash
  then (Ok peerID, mkHSState (HS_Peers st ++ [mkPeerEntry ip port peerID true None]) (HS_Closed st))
  else (Err ErrHandshakeInfoHash, close_conn st).
Proof.
  unfold handshake_bytes.
  rewrite (copy_array_full 19 protocol), (copy_array_full 20 peerID) by (auto; reflexivity).
  unfold PerformHandshake_reply, read_handshake.
  rewrite <- !app_assoc.
  remember ([Z.of_nat (List.length protocol)] ++ protocol ++ repeat 0 8) as pre eqn:Epre.
  replace ([Z.of_nat (List.length protocol)] ++ protocol ++ repeat 0 8 ++ peerInfoHash ++ peerID ++ rest)
    with (pre ++ peerInfoHash ++ peerID ++ rest) by (subst pre; rewrite <- !app_assoc; reflexivity).
  assert (Hpre : List.length pre = 28%nat) by (subst pre; reflexivity).
  assert (Hl : (List.length (pre ++ peerInfoHash ++ peerID ++ rest) <? 68)%nat = false).
  { apply Nat.ltb_ge. rewrite !length_app. lia. }
  rewrite Hl. cbv iota beta.
  assert (Hhd : hd 0 (pre ++ peerInfoHash ++ peerID ++ rest) = 19) by (subst pre; reflexivity).
  assert (Hprot : slice 1 20 (pre ++ peerInfoHash ++ peerID ++ rest) = protocol).
  { subst pre. unfold slice. reflexivity. }
  assert (Hih' : slice 28 48 (pre ++ peerInfoHash ++ peerID ++ rest) = peerInfoHash).
  { unfold slice. rewrite skipn_app, Hpre. rewrite skipn_all2 by lia. cbn [Nat.sub skipn app].
    rewrite firstn_app, Hpih. cbn [Nat.sub]. rewrite firstn_O, app_nil_r. apply firstn_all2. lia. }
  assert (Hpid' : slice 48 68 (pre ++ peerInfoHash ++ peerID ++ rest) = peerID).
  { unfold slice. rewrite skipn_app, Hpre, skipn_all2 by lia. cbn [app Nat.sub].
    rewrite skipn_app, Hpih. rewrite skipn_all2 by lia. cbn [app Nat.sub skipn].
    rewrite firstn_app, Hpid. cbn [Nat.sub]. rewrite firstn_O, app_nil_r. apply firstn_all2. lia. }
  cbn [ProtocolNameLength Protocol HS_InfoHash HS_PeerID].
  rewrite Hhd, Hprot, Hih', Hpid'.
  replace (bytes_Equal protocol protocol) with true by (symmetry; apply bytes_Equal_spec; reflexivity).
  cbn [Z.eqb negb orb]. destruct (bytes_Equal peerInfoHash infoHash); reflexivity.
Qed.

Lemma list_set_length {A} (l : list A) (i : nat) (v : A) :
  List.length (list_set l i v) = List.length l.
Proof.
  revert i. induction l as [|x l IH]; intros [|i]; simpl; auto.
Qed.

Lemma list_set_false_no_true (l : list bool) (i j : nat) :
  nth_error (list_set l i false) j = Some true -> nth_error l j = Some true.
Proof.
  revert i j. induction l as [|x l IH]; intros [|i] [|j] H; simpl in *; eauto; discriminate.
Qed.

Lemma write_fold_gen (info : TorrentInfo) (Files : list FileInfo)
    (WriteAt : FileInfo -> Z -> list Z -> bool) (pieces : list PieceResult) :
  forall D c D' c',
    fold_left (write_piece info Files WriteAt) pieces (D, c) = (D', c') ->
    NoDup c ->
    NoDup c' /\
    (forall i, In i c' <-> In i c \/ exists p, In p pieces /\ PR_Index p = i) /\
    List.length D' = List.length D /\
    (forall i, nth_error D' i = Some true -> nth_error D i = Some true) /\
    ((forall f o ch, WriteAt f o ch = false) -> D' = D).
Proof.
  induction pieces as [|p pieces IH]; intros D c D' c' Hf Hnd; simpl in Hf.
  - inversion Hf; subst. repeat split; auto.
    + intros [H|[q [[] _]]]. exact H.
  - unfold write_piece at 1 in Hf.
    destruct (existsb (Nat.eqb (PR_Index p)) c) eqn:Ex.
    + destruct (IH _ _ _ _ Hf Hnd) as (H1 & H2 & H3 & H4 & H5).
      apply existsb_exists in Ex. destruct Ex as [x [Hx Hxe]]. apply Nat.eqb_eq in Hxe. subst x.
      repeat split; auto.
      * intros Hi. apply H2 in Hi. destruct Hi as [Hi|[q [Hq Hqi]]]; auto.
        right. exists q. split; [right|]; auto.
      * intros [Hi|[q [[Hq|Hq] Hqi]]]; apply H2; auto.
        -- left. subst q. rewrite <- Hqi. exact Hx.
        -- right. eauto.
    + assert (Hnd' : NoDup (PR_Index p :: c)).
      { constructor; auto. intros Hin.
        assert (existsb (Nat.eqb (PR_Index p)) c = true)
          by (apply existsb_exists; exists (PR_Index p); split; [exact Hin | apply Nat.eqb_refl]).
        congruence. }
      destruct (IH _ _ _ _ Hf Hnd') as (H1 & H2 & H3 & H4 & H5).
      rewrite write_chunks_spec in H3, H4, H5.
      repeat split; auto.
      * intros Hi. apply H2 in Hi. destruct Hi as [[Hi|Hi]|[q [Hq Hqi]]].
        -- right. exists p. split; [left|]; auto.
        -- left; exact Hi.
        -- right. exists q. split; [right|]; auto.
      * intros [Hi|[q [[Hq|Hq] Hqi]]]; apply H2.
        -- left; right; exact Hi.
        -- left; left. subst q; exact Hqi.
        -- right; eauto.
      * rewrite H3. destruct (existsb _ Files); [apply list_set_length | reflexivity].
      * intros i Hi. apply H4 in Hi.
        destruct (existsb _ Files); [eapply list_set_false_no_true; exact Hi | exact Hi].
      * intros Hw. rewrite H5 by exact Hw.
        replace (existsb (chunk_write_fails info WriteAt p) Files) with false; [reflexivity|].
        symmetry. clear -Hw. induction Files as [|f fs IHf]; [reflexivity|].
        cbn [existsb]. rewrite IHf, orb_false_r. unfold chunk_write_fails.
        destruct (_ >=? _); [reflexivity | apply Hw].
Qed.

(** Extra (p2p.go StartDownload, writer loop): the completed list has no
    duplicates and holds exactly the indices of the received pieces, the
    downloaded flags keep their length, the writer never sets a flag that was
    not set, a writer whose writes all succeed leaves the flags unchanged, and
    the result is success exactly when as many pieces completed as the torrent
    has. *)
Theorem StartDownload_writer_invariants (info : TorrentInfo) (Files : list FileInfo)
    (WriteAt : FileInfo -> Z -> list Z -> bool) (Downloaded : list bool)
    (pieces : list PieceResult) (r : result unit) (D' : list bool) (completed : list nat)
    (Hrun : StartDownload_writer info Files WriteAt Downloaded pieces = (r, D', completed)) :
  NoDup completed /\
  (forall i, In i completed <-> exists p, In p pieces /\ PR_Index p = i) /\
  List.length D' = List.length Downloaded /\
  (forall i, nth_error D' i = Some true -> nth_error Downloaded i = Some true) /\
  ((forall f o ch, WriteAt f o ch = false) -> D' = Downloaded) /\
  (r = Ok tt <-> Z.of_nat (List.length completed) = NumPieces info).
Proof.
  unfold StartDownload_writer in Hrun.
  destruct (fold_left _ pieces _) as [D'' c'] eqn:Hf.
  injection Hrun as <- <- <-.
  destruct (write_fold_gen info Files WriteAt pieces _ _ _ _ Hf (NoDup_nil _))
    as (H1 & H2 & H3 & H4 & H5).
  repeat split; auto.
  - intros Hi. apply H2 in Hi. destruct Hi as [[]|Hi]; exact Hi.
  - intros Hi. apply H2. right; exact Hi.
  - destruct (Z.of_nat (List.length c') =? NumPieces info) eqn:E; simpl; [|discriminate].
    intros _. apply Z.eqb_eq, E.
  - intros E. rewrite <- Z.eqb_eq in E. rewrite E. reflexivity.
Qed.






Lemma decimal_aux_is_digit (fuel : nat) (n : Z) (acc : list Z) :
  Forall (fun c => is_digit c = true) acc ->
  Forall (fun c => is_digit c = true) (decimal_aux fuel n acc).
Proof.
  revert n acc. induction fuel as [|f IH]; intros n acc Hacc; simpl; [exact Hacc|].
  assert (Hc : is_digit (48 + n mod 10) = true).
  { unfold is_digit. pose proof (Z.mod_pos_bound n 10 ltac:(lia)).
    apply andb_true_intro; split; apply Z.leb_le; lia. }
  destruct (n / 10 =? 0); [constructor; auto | apply IH; constructor; auto].
Qed.

Lemma decimal_is_digit (n : Z) : Forall (fun c => is_digit c = true) (decimal n).
Proof. apply decimal_aux_is_digit. constructor. Qed.

Lemma decimal_nonempty (n : Z) : decimal n <> [].
Proof.
  assert (H : forall f m acc, acc <> [] -> decimal_aux f m acc <> []).
  { induction f as [|f IH]; intros m' acc' Hne; simpl; [exact Hne|].
    destruct (m' / 10 =? 0); [discriminate | apply IH; discriminate]. }
  assert (H1 : forall f m, decimal_aux (S f) m [] <> []).
  { intros f m. cbn [decimal_aux]. destruct (m / 10 =? 0); [discriminate | apply H; discriminate]. }
  apply H1.
Qed.

Lemma count_while_app (p : Z -> bool) (l : list Z) (x : Z) (r : list Z) :
  Forall (fun c => p c = true) l -> p x = false ->
  count_while p (l ++ x :: r) = List.length l.
Proof.
  intros Hl Hx. induction Hl as [|c l Hc Hl IH]; simpl.
  - rewrite Hx. reflexivity.
  - rewrite Hc, IH. reflexivity.
Qed.

Lemma nth_app_length (pre r : list Z) (x d : Z) :
  nth (List.length pre) (pre ++ x :: r) d = x.
Proof. rewrite app_nth2, Nat.sub_diag by lia. reflexivity. Qed.

Lemma skipn_app_length (pre r : list Z) (k : nat) :
  skipn (List.length pre + k) (pre ++ r) = skipn k r.
Proof. rewrite skipn_app, skipn_all2 by lia. replace (List.length pre + k - List.length pre)%nat with k by lia. reflexivity. Qed.

Lemma is_digit_range (c : Z) : is_digit c = true -> 48 <= c <= 57.
Proof. unfold is_digit. rewrite andb_true_iff, !Z.leb_le. lia. Qed.

Lemma list_sum_cons_eq (a : nat) (r : list nat) : list_sum (a :: r) = (a + list_sum r)%nat.
Proof. reflexivity. Qed.

Lemma in_concat_length {A} (f : A -> list Z) (l : list A) (x : A) :
  In x l -> (List.length (f x) <= List.length (List.concat (map f l)))%nat.
Proof.
  induction l as [|y l IH]; intros Hin; [destruct Hin|].
  cbn [map List.concat]; rewrite length_app.
  destruct Hin as [<-|Hx]; [lia|]. specialize (IH Hx). lia.
Qed.

Section Scan.

Variable data : list Z.
Variable start : Z.
Hypothesis Hbound : Z.of_nat (List.length data) < 2 ^ 63.

Lemma scan_int (n : Z) (pre post : list Z) (d : Z) (fuel : nat) :
  data = pre ++ bencode (BInt n) ++ post ->
  extract_loop (S fuel) data start d (Z.of_nat (List.length pre)) =
  extract_loop fuel data start d (Z.of_nat (List.length pre + List.length (bencode (BInt n)))).
Proof.
  intros Hd. cbn [bencode] in *.
  set (body := if n <? 0 then 45 :: decimal (- n) else decimal n) in *.
  assert (Hbody : Forall (fun c => negb (c =? 101) = true) body).
  { assert (Hdig : forall m, Forall (fun c => negb (c =? 101) = true) (decimal m)).
    { intros m. eapply Forall_impl; [|apply decimal_is_digit].
      intros c Hc. apply is_digit_range in Hc. apply negb_true_iff, Z.eqb_neq. lia. }
    subst body. destruct (n <? 0); [constructor; [reflexivity|] |]; apply Hdig. }
  assert (Hd' : data = pre ++ 105 :: body ++ 101 :: post)
    by (rewrite Hd; rewrite <- !app_assoc; reflexivity).
  assert (Hlen : List.length data = (List.length pre + 1 + List.length body + 1 + List.length post)%nat)
    by (rewrite Hd', length_app; cbn [List.length]; rewrite length_app; cbn [List.length]; lia).
  cbn [extract_loop].
  replace (Z.of_nat (List.length pre) <? Z.of_nat (List.length data)) with true
    by (symmetry; apply Z.ltb_lt; lia).
  replace (Z.of_nat (List.length pre) <? 0) with false by (symmetry; apply Z.ltb_ge; lia).
  rewrite Nat2Z.id.
  replace (nth (List.length pre) data 0) with 105 by (rewrite Hd', nth_app_length; reflexivity).
  cbn [Z.eqb orb negb Pos.eqb].
  replace (Z.to_nat (Z.of_nat (List.length pre) + 1)) with (List.length pre + 1)%nat by lia.
  replace (skipn (List.length pre + 1) data) with (body ++ 101 :: post)
    by (rewrite Hd', skipn_app_length; reflexivity).
  rewrite count_while_app by (exact Hbody || reflexivity).
  replace (Z.of_nat (List.length pre) + 1 + Z.of_nat (List.length body) >=? Z.of_nat (List.length data))
    with false by (symmetry; rewrite Z.geb_leb; apply Z.leb_gt; lia).
  f_equal. rewrite !length_app. cbn [List.length]. lia.
Qed.

Lemma scan_str (s : list Z) (pre post : list Z) (d : Z) (fuel : nat) :
  data = pre ++ bencode_str s ++ post ->
  extract_loop (S fuel) data start d (Z.of_nat (List.length pre)) =
  extract_loop fuel data start d (Z.of_nat (List.length pre + List.length (bencode_str s))).
Proof.
  intros Hd. unfold bencode_str in *.
  set (L := Z.of_nat (List.length s)) in *.
  set (ds := decimal L) in *.
  assert (Hlen : List.length data = (List.length pre + List.length ds + 1 + List.length s + List.length post)%nat)
    by (rewrite Hd, !length_app; cbn [List.length]; lia).
  assert (HL : 0 <= L < 2 ^ 63) by (subst L; lia).
  destruct (decimal_digits L ltac:(split; [lia|]; apply Z.lt_le_trans with (2 ^ 63); [lia|]; vm_compute; discriminate))
    as (Hne & _ & Hval).
  pose proof (decimal_is_digit L) as Hdig. fold ds in Hne, Hval, Hdig.
  destruct ds as [|c0 ds'] eqn:Eds; [contradiction|].
  assert (Hc0 : 48 <= c0 <= 57) by (apply is_digit_range; inversion Hdig; assumption).
  assert (Hd' : data = pre ++ c0 :: ds' ++ 58 :: s ++ post)
    by (rewrite Hd; rewrite <- !app_assoc; reflexivity).
  cbn [extract_loop].
  replace (Z.of_nat (List.length pre) <? Z.of_nat (List.length data)) with true
    by (symmetry; apply Z.ltb_lt; cbn [List.length] in Hlen; lia).
  replace (Z.of_nat (List.length pre) <? 0) with false by (symmetry; apply Z.ltb_ge; lia).
  rewrite Nat2Z.id.
  replace (nth (List.length pre) data 0) with c0 by (rewrite Hd', nth_app_length; reflexivity).
  replace (c0 =? 100) with false by (symmetry; apply Z.eqb_neq; lia).
  replace (c0 =? 108) with false by (symmetry; apply Z.eqb_neq; lia).
  replace (c0 =? 101) with false by (symmetry; apply Z.eqb_neq; lia).
  replace (c0 =? 105) with false by (symmetry; apply Z.eqb_neq; lia).
  replace (is_digit c0) with true by (symmetry; inversion Hdig; assumption).
  cbn [orb].
  replace (skipn (List.length pre) data) with ((c0 :: ds') ++ 58 :: s ++ post)
    by (rewrite Hd', <- (Nat.add_0_r (List.length pre)), skipn_app_length; reflexivity).
  rewrite count_while_app by (exact Hdig || reflexivity).
  set (j := Z.of_nat (List.length pre) + Z.of_nat (List.length (c0 :: ds'))).
  replace (j <? Z.of_nat (List.length data)) with true
    by (symmetry; apply Z.ltb_lt; subst j; cbn [List.length] in *; lia).
  replace (nth (Z.to_nat j) data 0) with 58.
  2:{ subst j. rewrite Hd'. replace (Z.to_nat _) with (List.length (pre ++ c0 :: ds')).
      - rewrite app_comm_cons, app_assoc, nth_app_length. reflexivity.
      - rewrite length_app. lia. }
  cbn [Z.eqb andb Pos.eqb].
  replace (slice (List.length pre) (Z.to_nat j) data) with (c0 :: ds').
  2:{ unfold slice. subst j. rewrite Hd'.
      replace (Z.to_nat _ - List.length pre)%nat with (List.length (c0 :: ds')) by lia.
      rewrite <- (Nat.add_0_r (List.length pre)), skipn_app_length, skipn_O.
      rewrite app_comm_cons, firstn_app, Nat.sub_diag, firstn_O, app_nil_r, firstn_all.
      reflexivity. }
  unfold atoi_digits. pose proof (Hval []) as Hv. rewrite app_nil_r in Hv. rewrite Hv.
  cbn [digits_value].
  replace (L <=? 2 ^ 63 - 1) with true by (symmetry; apply Z.leb_le; lia).
  cbn [negb].
  rewrite (wrap64_small (j + 1 + L - 1)) by (subst j L; cbn [List.length] in *; lia).
  rewrite wrap64_small by (subst j L; cbn [List.length] in *; lia).
  f_equal. subst j L. rewrite !length_app. cbn [List.length]. lia.
Qed.

Lemma scan_open (pre r : list Z) (c d : Z) (fuel : nat) :
  data = pre ++ c :: r -> c = 100 \/ c = 108 ->
  extract_loop (S fuel) data start d (Z.of_nat (List.length pre)) =
  extract_loop fuel data start (d + 1) (Z.of_nat (List.length pre + 1)).
Proof.
  intros Hd Hc.
  assert (Hlen : List.length data = (List.length pre + S (List.length r))%nat)
    by (rewrite Hd, length_app; reflexivity).
  cbn [extract_loop].
  replace (Z.of_nat (List.length pre) <? Z.of_nat (List.length data)) with true
    by (symmetry; apply Z.ltb_lt; lia).
  replace (Z.of_nat (List.length pre) <? 0) with false by (symmetry; apply Z.ltb_ge; lia).
  rewrite Nat2Z.id, Hd, nth_app_length, <- Hd.
  replace ((c =? 100) || (c =? 108)) with true
    by (symmetry; apply orb_true_iff; destruct Hc as [-> | ->]; [left|right]; reflexivity).
  cbn [negb]. cbv beta iota. f_equal. lia.
Qed.

Lemma scan_close (pre r : list Z) (d : Z) (fuel : nat) :
  data = pre ++ 101 :: r ->
  extract_loop (S fuel) data start d (Z.of_nat (List.length pre)) =
  if d - 1 =? 0 then FOk (slice (Z.to_nat start) (List.length pre + 1) data)
  else extract_loop fuel data start (d - 1) (Z.of_nat (List.length pre + 1)).
Proof.
  intros Hd.
  assert (Hlen : List.length data = (List.length pre + S (List.length r))%nat)
    by (rewrite Hd, length_app; reflexivity).
  cbn [extract_loop].
  replace (Z.of_nat (List.length pre) <? Z.of_nat (List.length data)) with true
    by (symmetry; apply Z.ltb_lt; lia).
  replace (Z.of_nat (List.length pre) <? 0) with false by (symmetry; apply Z.ltb_ge; lia).
  rewrite Nat2Z.id, Hd, nth_app_length, <- Hd. cbn [Z.eqb orb negb Pos.eqb].
  replace (Z.to_nat (Z.of_nat (List.length pre) + 1)) with (List.length pre + 1)%nat by lia.
  destruct (d - 1 =? 0); [reflexivity|]. f_equal. lia.
Qed.

Lemma scan_list_items (l : list bvalue) (d : Z) :
  (forall x, In x l -> forall pre post fuel, data = pre ++ bencode x ++ post ->
     extract_loop (fuel + bsteps x) data start d (Z.of_nat (List.length pre)) =
     extract_loop fuel data start d (Z.of_nat (List.length pre + List.length (bencode x)))) ->
  forall pre rest fuel, data = pre ++ List.concat (map bencode l) ++ rest ->
  extract_loop (fuel + list_sum (map bsteps l)) data start d (Z.of_nat (List.length pre)) =
  extract_loop fuel data start d
    (Z.of_nat (List.length pre + List.length (List.concat (map bencode l)))).
Proof.
  induction l as [|x l IH]; intros Hall pre rest fuel Hd; cbn [map List.concat] in *;
    rewrite ?list_sum_cons_eq.
  - rewrite Nat.add_0_r. f_equal. cbn [List.length]. lia.
  - replace (fuel + (bsteps x + list_sum (map bsteps l)))%nat
      with ((fuel + list_sum (map bsteps l)) + bsteps x)%nat by lia.
    rewrite (Hall x (or_introl eq_refl) pre (List.concat (map bencode l) ++ rest))
      by (rewrite Hd; rewrite <- app_assoc; reflexivity).
    rewrite <- length_app.
    rewrite (IH (fun y Hy => Hall y (or_intror Hy)) (pre ++ bencode x) rest)
      by (rewrite Hd; rewrite <- !app_assoc; reflexivity).
    f_equal. rewrite !length_app. lia.
Qed.

Lemma scan_dict_items (kvs : list (list Z * bvalue)) (d : Z) :
  (forall k x, In (k, x) kvs -> forall pre post fuel, data = pre ++ bencode x ++ post ->
     extract_loop (fuel + bsteps x) data start d (Z.of_nat (List.length pre)) =
     extract_loop fuel data start d (Z.of_nat (List.length pre + List.length (bencode x)))) ->
  forall pre rest fuel,
  data = pre ++ List.concat (map (fun kv => let '(k, x) := kv in bencode_str k ++ bencode x) kvs)
            ++ rest ->
  extract_loop (fuel + list_sum (map (fun kv => let '(_, x) := kv in S (bsteps x)) kvs))
    data start d (Z.of_nat (List.length pre)) =
  extract_loop fuel data start d
    (Z.of_nat (List.length pre + List.length
       (List.concat (map (fun kv => let '(k, x) := kv in bencode_str k ++ bencode x) kvs)))).
Proof.
  induction kvs as [|[k x] kvs IH]; intros Hall pre rest fuel Hd; cbn [map List.concat] in *;
    rewrite ?list_sum_cons_eq.
  - rewrite Nat.add_0_r. f_equal. cbn [List.length]. lia.
  - set (cs := List.concat (map (fun kv => let '(k, x) := kv in bencode_str k ++ bencode x) kvs)) in *.
    replace (fuel + (S (bsteps x) + list_sum (map (fun kv => let '(_, x) := kv in S (bsteps x)) kvs)))%nat
      with (S ((fuel + list_sum (map (fun kv => let '(_, x) := kv in S (bsteps x)) kvs)) + bsteps x))%nat
      by lia.
    rewrite (scan_str k pre (bencode x ++ cs ++ rest))
      by (rewrite Hd; rewrite <- !app_assoc; reflexivity).
    rewrite <- length_app.
    rewrite (Hall k x (or_introl eq_refl) (pre ++ bencode_str k) (cs ++ rest))
      by (rewrite Hd; rewrite <- !app_assoc; reflexivity).
    rewrite <- length_app.
    rewrite (IH (fun k' y Hy => Hall k' y (or_intror Hy)) ((pre ++ bencode_str k) ++ bencode x) rest)
      by (rewrite Hd; rewrite <- !app_assoc; reflexivity).
    f_equal. rewrite !length_app. lia.
Qed.



Lemma scan_value (n : nat) : forall v, (List.length (bencode v) < n)%nat ->
  forall d pre post fuel, 1 <= d -> data = pre ++ bencode v ++ post ->
  extract_loop (fuel + bsteps v) data start d (Z.of_nat (List.length pre)) =
  extract_loop fuel data start d (Z.of_nat (List.length pre + List.length (bencode v))).
Proof.
  induction n as [|n IHn]; intros v Hv; [lia|].
  intros d pre post fuel Hd1 Hd.
  destruct v as [z|s|l|kvs].
  - rewrite Nat.add_1_r. apply scan_int with (post := post). exact Hd.
  - rewrite Nat.add_1_r. apply scan_str with (post := post). exact Hd.
  - cbn [bsteps]. cbn [bencode] in Hd, Hv |- *.
    set (cs := List.concat (map bencode l)) in *.
    assert (Hall : forall x, In x l -> forall pre' post' fuel', data = pre' ++ bencode x ++ post' ->
       extract_loop (fuel' + bsteps x) data start (d + 1) (Z.of_nat (List.length pre')) =
       extract_loop fuel' data start (d + 1)
         (Z.of_nat (List.length pre' + List.length (bencode x)))).
    { intros x Hx pre' post' fuel' Hd'. apply (IHn x) with (post := post'); [|lia|exact Hd'].
      pose proof (in_concat_length bencode l x Hx) as H. fold cs in H.
      rewrite !length_app in Hv. cbn [List.length] in Hv. lia. }
    replace (fuel + (2 + list_sum (map bsteps l)))%nat
      with (S (S fuel + list_sum (map bsteps l))) by lia.
    rewrite (scan_open pre (cs ++ 101 :: post) 108) by (auto; rewrite Hd, <- !app_assoc; reflexivity).
    replace (List.length pre + 1)%nat with (List.length (pre ++ [108])) by (rewrite length_app; reflexivity).
    rewrite (scan_list_items l (d + 1) Hall (pre ++ [108]) (101 :: post))
      by (rewrite Hd, <- !app_assoc; reflexivity).
    fold cs. rewrite <- length_app.
    rewrite (scan_close ((pre ++ [108]) ++ cs) post) by (rewrite Hd, <- !app_assoc; reflexivity).
    replace (d + 1 - 1 =? 0) with false by (symmetry; apply Z.eqb_neq; lia).
    f_equal; [lia|]. rewrite !length_app. cbn [List.length]. lia.
  - cbn [bsteps]. cbn [bencode] in Hd, Hv |- *.
    set (cs := List.concat (map (fun kv => let '(k, x) := kv in bencode_str k ++ bencode x) kvs)) in *.
    assert (Hall : forall k x, In (k, x) kvs -> forall pre' post' fuel', data = pre' ++ bencode x ++ post' ->
       extract_loop (fuel' + bsteps x) data start (d + 1) (Z.of_nat (List.length pre')) =
       extract_loop fuel' data start (d + 1)
         (Z.of_nat (List.length pre' + List.length (bencode x)))).
    { intros k x Hx pre' post' fuel' Hd'. apply (IHn x) with (post := post'); [|lia|exact Hd'].
      pose proof (in_concat_length (fun kv => let '(k, x) := kv in bencode_str k ++ bencode x)
                    kvs (k, x) Hx) as H. fold cs in H. cbv beta iota in H. rewrite length_app in H.
      rewrite !length_app in Hv. cbn [List.length] in Hv. lia. }
    replace (fuel + (2 + list_sum (map (fun kv => let '(_, x) := kv in S (bsteps x)) kvs)))%nat
      with (S (S fuel + list_sum (map (fun kv => let '(_, x) := kv in S (bsteps x)) kvs))) by lia.
    rewrite (scan_open pre (cs ++ 101 :: post) 100) by (auto; rewrite Hd, <- !app_assoc; reflexivity).
    replace (List.length pre + 1)%nat with (List.length (pre ++ [100])) by (rewrite length_app; reflexivity).
    rewrite (scan_dict_items kvs (d + 1) Hall (pre ++ [100]) (101 :: post))
      by (rewrite Hd, <- !app_assoc; reflexivity).
    fold cs. rewrite <- length_app.
    rewrite (scan_close ((pre ++ [100]) ++ cs) post) by (rewrite Hd, <- !app_assoc; reflexivity).
    replace (d + 1 - 1 =? 0) with false by (symmetry; apply Z.eqb_neq; lia).
    f_equal; [lia|]. rewrite !length_app. cbn [List.length]. lia.
Qed.

End Scan.

Lemma index_from_first (pat pre rest : list Z) (k : nat) :
  (forall m, (m < List.length pre)%nat ->
     firstn (List.length pat) (skipn m (pre ++ pat)) <> pat) ->
  index_from pat (pre ++ pat ++ rest) k = Some (k + List.length pre)%nat.
Proof.
  revert k. induction pre as [|c pre IH]; intros k Hfirst.
  - destruct pat as [|p0 pat']; cbn [app List.length firstn index_from].
    + rewrite Nat.add_0_r. destruct rest; reflexivity.
    + unfold index_from. rewrite firstn_app, firstn_all, Nat.sub_diag, firstn_O, app_nil_r.
      replace (bytes_Equal (p0 :: pat') (p0 :: pat')) with true
        by (symmetry; apply bytes_Equal_spec; reflexivity).
      rewrite Nat.add_0_r. reflexivity.
  - assert (Hne : bytes_Equal (firstn (List.length pat) ((c :: pre) ++ pat ++ rest)) pat = false).
    { apply bytes_Equal_false. specialize (Hfirst 0%nat ltac:(cbn [List.length]; lia)).
      rewrite skipn_O in Hfirst. rewrite app_assoc, firstn_app.
      replace (List.length pat - List.length ((c :: pre) ++ pat))%nat with 0%nat
        by (rewrite length_app; lia).
      rewrite firstn_O, app_nil_r. exact Hfirst. }
    change ((c :: pre) ++ pat ++ rest) with (c :: (pre ++ pat ++ rest)) in *.
    assert (Hu : forall r, index_from pat (c :: r) k =
              if bytes_Equal (firstn (List.length pat) (c :: r)) pat then Some k
              else index_from pat r (S k)) by reflexivity.
    rewrite Hu, Hne, IH; [cbn [List.length]; f_equal; lia|].
    intros m Hm. apply (Hfirst (S m)). cbn [List.length]. lia.
Qed.

Lemma bsteps_le (n : nat) : forall v, (List.length (bencode v) < n)%nat ->
  (bsteps v <= List.length (bencode v))%nat.
Proof.
  induction n as [|n IHn]; intros v Hv; [lia|].
  destruct v as [z|s|l|kvs]; cbn [bsteps bencode] in *.
  - rewrite !length_app. cbn [List.length]. lia.
  - unfold bencode_str. rewrite length_app.
    pose proof (decimal_nonempty (Z.of_nat (List.length s))).
    destruct (decimal _); [contradiction | cbn [List.length]; lia].
  - rewrite !length_app in *. cbn [List.length] in *.
    enough (list_sum (map bsteps l) <= List.length (List.concat (map bencode l)))%nat by lia.
    assert (Hall : forall x, In x l -> (bsteps x <= List.length (bencode x))%nat).
    { intros x Hx. apply IHn. pose proof (in_concat_length bencode l x Hx). lia. }
    clear Hv. induction l as [|x l IHl]; [cbn; lia|].
    cbn [map List.concat]. rewrite list_sum_cons_eq, length_app.
    pose proof (Hall x (or_introl eq_refl)) as H1.
    assert (list_sum (map bsteps l) <= List.length (List.concat (map bencode l)))%nat
      by (apply IHl; intros y Hy; apply Hall; right; exact Hy). lia.
  - rewrite !length_app in *. cbn [List.length] in *.
    set (item := fun kv : list Z * bvalue => let '(k, x) := kv in bencode_str k ++ bencode x) in *.
    enough (list_sum (map (fun kv => let '(_, x) := kv in S (bsteps x)) kvs)
              <= List.length (List.concat (map item kvs)))%nat by lia.
    assert (Hall : forall k x, In (k, x) kvs -> (bsteps x <= List.length (bencode x))%nat).
    { intros k x Hx. apply IHn. pose proof (in_concat_length item kvs (k, x) Hx) as H.
      subst item. cbv beta iota in H. rewrite length_app in H. lia. }
    clear Hv. induction kvs as [|[k x] kvs IHk]; [cbn; lia|].
    cbn [map List.concat]. rewrite list_sum_cons_eq, length_app.
    assert (H1 := Hall k x (or_introl eq_refl)).
    assert (list_sum (map (fun kv => let '(_, x) := kv in S (bsteps x)) kvs)
              <= List.length (List.concat (map item kvs)))%nat
      by (apply IHk; intros k' y Hy; apply (Hall k' y); right; exact Hy).
    subst item. cbv beta iota in *. rewrite length_app.
    assert (Hk : (1 <= List.length (bencode_str k))%nat).
    { unfold bencode_str. rewrite length_app.
      pose proof (decimal_nonempty (Z.of_nat (List.length k))).
      destruct (decimal _); [contradiction | cbn [List.length]; lia]. }
    lia.
Qed.

(** Extra (parse.go extractInfoBytes, Parse): when the first "4:info" of a
    torrent file is followed by a well-formed bencoded dictionary, the
    extracted info bytes are exactly that dictionary's encoding, and the info
    hash is its SHA-1. *)
Theorem extractInfoBytes_bencoded (sha1 : list Z -> list Z) (pre post : list Z)
    (kvs : list (list Z * bvalue))
    (Hfirst : forall k, (k < List.length pre)%nat ->
       firstn (List.length info_key) (skipn k (pre ++ info_key)) <> info_key)
    (Hlen : Z.of_nat (List.length (pre ++ info_key ++ bencode (BDict kvs) ++ post)) < 2 ^ 63) :
  extractInfoBytes (pre ++ info_key ++ bencode (BDict kvs) ++ post) = FOk (bencode (BDict kvs)) /\
  Parse_InfoHash sha1 (pre ++ info_key ++ bencode (BDict kvs) ++ post) = sha1 (bencode (BDict kvs)).
Proof.
  set (data := pre ++ info_key ++ bencode (BDict kvs) ++ post) in *.
  assert (Hex : extractInfoBytes data = FOk (bencode (BDict kvs))).
  { unfold extractInfoBytes, bytes_Index.
    replace (index_from info_key data 0) with (Some (0 + List.length pre)%nat)
      by (symmetry; apply (index_from_first info_key pre (bencode (BDict kvs) ++ post) 0 Hfirst)).
    cbv beta iota zeta.
    set (cs := List.concat (map (fun kv => let '(k, x) := kv in bencode_str k ++ bencode x) kvs)).
    set (pre' := pre ++ info_key).
    assert (Hd : data = pre' ++ 100 :: cs ++ 101 :: post)
      by (unfold data, pre', cs; cbn [bencode]; rewrite <- !app_assoc; reflexivity).
    assert (Hst : Z.of_nat (0 + List.length pre) + Z.of_nat (List.length info_key)
                  = Z.of_nat (List.length pre')) by (subst pre'; rewrite length_app; lia).
    rewrite Hst.
    assert (Hsteps : (bsteps (BDict kvs) <= List.length data)%nat).
    { pose proof (bsteps_le (S (List.length (bencode (BDict kvs)))) (BDict kvs) ltac:(lia)).
      unfold data. rewrite !length_app. lia. }
    cbn [bsteps] in Hsteps.
    set (sm := list_sum (map (fun kv => let '(_, x) := kv in S (bsteps x)) kvs)) in *.
    replace (S (List.length data)) with (S (S (List.length data - (1 + sm)) + sm))%nat by lia.
    rewrite (scan_open data (Z.of_nat (List.length pre')) pre' (cs ++ 101 :: post) 100)
      by (auto; exact Hd).
    replace (List.length pre' + 1)%nat with (List.length (pre' ++ [100]))
      by (rewrite length_app; reflexivity).
    rewrite (scan_dict_items data _ Hlen kvs (0 + 1)) with (rest := 101 :: post).
    - fold cs. rewrite <- length_app.
      rewrite (scan_close data _ ((pre' ++ [100]) ++ cs) post)
        by (rewrite Hd, <- !app_assoc; reflexivity).
      replace (0 + 1 - 1 =? 0) with true by reflexivity. f_equal.
      unfold slice. rewrite Nat2Z.id, Hd.
      replace (skipn (List.length pre') (pre' ++ 100 :: cs ++ 101 :: post))
        with (100 :: cs ++ 101 :: post)
        by (rewrite <- (Nat.add_0_r (List.length pre')), skipn_app_length; reflexivity).
      replace (List.length ((pre' ++ [100%Z]) ++ cs) + 1 - List.length pre')%nat
        with (List.length (bencode (BDict kvs))) by (cbn [bencode]; fold cs; rewrite !length_app; cbn [List.length]; lia).
      replace (100 :: cs ++ 101 :: post) with (bencode (BDict kvs) ++ post)
        by (cbn [bencode]; rewrite <- !app_assoc; reflexivity).
      rewrite firstn_app, Nat.sub_diag, firstn_O, app_nil_r, firstn_all. reflexivity.
    - intros k x Hx pre'' post'' fuel'' Hd''.
      apply (scan_value data (Z.of_nat (List.length pre')) Hlen (S (List.length (bencode x))) x ltac:(lia)) with (post := post'');
        [lia | exact Hd''].
    - rewrite Hd, <- !app_assoc. reflexivity. }
  split; [exact Hex|].
  unfold Parse_InfoHash, computeInfoHash. rewrite Hex. reflexivity.
Qed.

Lemma index_from_none (pat data : list Z) (k : nat) :
  (forall m, firstn (List.length pat) (skipn m data) <> pat) ->
  index_from pat data k = None.
Proof.
  revert k. induction data as [|c data IH]; intros k Hno.
  - unfold index_from. replace (bytes_Equal (firstn (List.length pat) []) pat) with false; [reflexivity|].
    symmetry. apply bytes_Equal_false. apply (Hno 0%nat).
  - assert (Hu : index_from pat (c :: data) k =
              if bytes_Equal (firstn (List.length pat) (c :: data)) pat then Some k
              else index_from pat data (S k)) by reflexivity.
    rewrite Hu. replace (bytes_Equal (firstn (List.length pat) (c :: data)) pat) with false.
    + apply IH. intros m. apply (Hno (S m)).
    + symmetry. apply bytes_Equal_false. apply (Hno 0%nat).
Qed.

(** Extra (parse.go extractInfoBytes, computeInfoHash, Parse): a torrent file
    without the key "4:info" has no info bytes, computeInfoHash fails, and
    Parse leaves the info hash as 20 zero bytes. *)
Theorem Parse_InfoHash_no_info (sha1 : list Z -> list Z) (data : list Z)
    (Hno : forall k, firstn (List.length info_key) (skipn k data) <> info_key) :
  extractInfoBytes data = FErr FNoInfo /\
  computeInfoHash sha1 data = FErr FNoInfo /\
  Parse_InfoHash sha1 data = repeat 0 20.
Proof.
  assert (H : extractInfoBytes data = FErr FNoInfo).
  { unfold extractInfoBytes, bytes_Index. rewrite index_from_none by exact Hno. reflexivity. }
  unfold Parse_InfoHash, computeInfoHash. rewrite H. auto.
Qed.

(** Extra (utils.go ParsePeers): a compact peer list whose length is not a
    multiple of 6 is rejected with its length; otherwise it yields one peer per
    6-byte group, in order, with the IP formatted from the first four bytes and
    the port read big-endian from the last two. *)
Theorem ParsePeers_spec (peers : list Z) :
  (Z.of_nat (List.length peers) mod 6 <> 0 ->
   ParsePeers peers = FErr (FPeersLength (Z.of_nat (List.length peers)))) /\
  (Z.of_nat (List.length peers) mod 6 = 0 ->
   exists ps, ParsePeers peers = FOk ps /\ List.length ps = (List.length peers / 6)%nat /\
   forall k, (k < List.length ps)%nat -> exists b0 b1 b2 b3 p0 p1,
     slice (6 * k) (6 * k + 6) peers = [b0; b1; b2; b3; p0; p1] /\
     nth_error ps k = Some (mkPeerAddr (format_ip b0 b1 b2 b3) (p0 * 256 + p1))).
Proof. exact (parse_peers_shape peers). Qed.

(** Extra (tracker.go SendTrackerResponse, utils.go ParsePeers): the
    "ip:port" key of a peer parsed from 6 bytes is encoded back by the re-encode
    step of SendTrackerResponse to exactly those 6 bytes. *)
Theorem encode_addr_roundtrip (b0 b1 b2 b3 p0 p1 : Z)
    (Hb : Forall (fun b => 0 <= b < 256) [b0; b1; b2; b3; p0; p1]) :
  encode_addr (peer_addr_key (mkPeerAddr (format_ip b0 b1 b2 b3) (p0 * 256 + p1)))
  = Some [b0; b1; b2; b3; p0; p1].
Proof.
  pose proof (encode_addr_key b0 b1 b2 b3 p0 p1 Hb) as E.
  replace (be_decode [p0; p1]) with (p0 * 256 + p1) in E; [exact E|].
  unfold be_decode. cbn. lia.
Qed.

Lemma encode_addr_roundtrip_witness :
  Forall (fun b => 0 <= b < 256) [192; 168; 0; 17; 26; 225] /\
  encode_addr (peer_addr_key (mkPeerAddr (format_ip 192 168 0 17) (26 * 256 + 225)))
  = Some [192; 168; 0; 17; 26; 225].
Proof.
  assert (Hb : Forall (fun b => 0 <= b < 256) [192; 168; 0; 17; 26; 225])
    by (repeat (apply Forall_cons; [lia|]); apply Forall_nil).
  split; [exact Hb|]. apply (encode_addr_roundtrip 192 168 0 17 26 225 Hb).
Defined.

Lemma SendMessage_ReceiveMessage_roundtrip_witness :
  let msg := mkMessage Piece [1; 2; 3] in
  let write_ok := fun k => Nat.eqb k 2 in
  0 <= ID msg < 256 /\
  Z.of_nat (List.length (Payload msg)) + 1 <= max_message_length /\
  SendMessage true msg write_ok = (FOk (serialize_message msg), 2%nat) /\
  ReceiveMessage (Some (serialize_message msg ++ [9])) = Ok (msg, [9]).
Proof.
  intros msg write_ok.
  assert (H1 : 0 <= ID msg < 256) by (subst msg; cbn; unfold Piece; lia).
  assert (H2 : Z.of_nat (List.length (Payload msg)) + 1 <= max_message_length)
    by (apply Z.leb_le; reflexivity).
  assert (H3 : SendMessage true msg write_ok = (FOk (serialize_message msg), 2%nat))
    by reflexivity.
  split; [exact H1|]. split; [exact H2|]. split; [exact H3|].
  apply (SendMessage_ReceiveMessage_roundtrip msg write_ok (serialize_message msg) 2 [9] H1 H2 H3).
Defined.

Lemma SendTrackerResponse_peers_witness :
  let udpResps := [FOk ([10; 0; 0; 2; 26; 225], 1800); FOk ([10; 0; 0; 2; 26; 225], 900)] in
  let httpResps := [FErr FNoConnectResponse] in
  Forall (fun r => match r with
                   | FOk (str, _) => Forall (fun b => 0 <= b < 256) str
                   | FErr _ => True end) (udpResps ++ httpResps) /\
  (forall l, Permutation ((fun l : list (list Z) => l) l) l) /\
  SendTrackerResponse_result udpResps httpResps (fun l => l) = FOk ([10; 0; 0; 2; 26; 225], 900) /\
  exists ps, ParsePeers [10; 0; 0; 2; 26; 225] = FOk ps /\ NoDup ps.
Proof.
  intros udpResps httpResps.
  assert (Hb : Forall (fun r => match r with
                   | FOk (str, _) => Forall (fun b => 0 <= b < 256) str
                   | FErr _ => True end) (udpResps ++ httpResps)).
  { subst udpResps httpResps. cbn [app].
    repeat (apply Forall_cons; [cbn; repeat (apply Forall_cons; [lia|]); apply Forall_nil|]).
    apply Forall_cons; [exact I|apply Forall_nil]. }
  assert (Ho : forall l, Permutation ((fun l : list (list Z) => l) l) l) by (intros l; apply Permutation_refl).
  assert (Hr : SendTrackerResponse_result udpResps httpResps (fun l => l) = FOk ([10; 0; 0; 2; 26; 225], 900))
    by reflexivity.
  split; [exact Hb|]. split; [exact Ho|]. split; [exact Hr|].
  pose proof (SendTrackerResponse_peers udpResps httpResps (fun l => l) Hb Ho) as H.
  rewrite Hr in H. destruct H as [_ [ps [Hps [Hnd _]]]]. exists ps. split; assumption.
Defined.

Lemma SendTrackerResponse_interval_witness :
  let udpResps := [FOk ([10; 0; 0; 2; 26; 225], 1800); FOk ([10; 0; 0; 2; 26; 225], 900)] in
  let httpResps := [FErr FNoConnectResponse] in
  (forall str i, In (FOk (str, i)) (udpResps ++ httpResps) -> 0 < i) /\
  snd (SendTrackerResponse_merge udpResps httpResps) <= 1800.
Proof.
  intros udpResps httpResps.
  assert (Hpos : forall str i, In (FOk (str, i)) (udpResps ++ httpResps) -> 0 < i).
  { intros str i Hin. subst udpResps httpResps. cbn in Hin.
    destruct Hin as [H|[H|[H|[]]]]; try discriminate; injection H as _ <-; lia. }
  split; [exact Hpos|].
  destruct (SendTrackerResponse_interval udpResps httpResps Hpos) as [_ [H _]].
  apply (H [10; 0; 0; 2; 26; 225] 1800 [mkPeerAddr (bytes_of_string "10.0.0.2") 6881]);
    [left; reflexivity | reflexivity].
Defined.

Lemma SendUDPTrackerRequest_success_witness :
  let cio := fun _ : Z => ConnRead (be_encode 4 0 ++ be_encode 4 7 ++ be_encode 8 77) in
  let aio := AnnRead (be_encode 4 1 ++ be_encode 4 7 ++ be_encode 4 1800 ++ be_encode 4 0
                      ++ be_encode 4 1 ++ [10; 0; 0; 2; 26; 225]) in
  let out := SendUDPTrackerRequest one_piece_info 7 (repeat 1 20) (repeat 2 20) 5 cio aio in
  out = (fst out, FOk ([10; 0; 0; 2; 26; 225], 1800)) /\
  exists k d, (1 <= k <= 3)%nat /\ cio (Z.of_nat k - 1) = ConnRead d.
Proof.
  intros cio aio out.
  assert (Hok : out = (fst out, FOk ([10; 0; 0; 2; 26; 225], 1800))) by (subst out; vm_compute; reflexivity).
  split; [exact Hok|].
  destruct (SendUDPTrackerRequest_success one_piece_info 7 (repeat 1 20) (repeat 2 20) 5 cio aio
              (fst out) [10; 0; 0; 2; 26; 225] 1800 Hok) as (k & d & dg & Hk & Hd & _).
  exists k, d. split; assumption.
Defined.

Lemma piece_requests_tiling_witness :
  0 <= 40000 /\
  fold_right Z.add 0 (map (fun j => Z.min (40000 - Z.of_nat j * blockSize) blockSize)
                          (seq 0 (Z.to_nat ((40000 + blockSize - 1) / blockSize)))) = 40000.
Proof.
  split; [lia|].
  destruct (piece_requests_tiling 3 40000 ltac:(lia)) as [_ [_ H]]. exact H.
Defined.

Lemma GeneratePeerID_format_witness :
  let randomBytes := [0; 7; 35; 200; 255; 22; 34; 1; 2; 3; 4; 5] in
  List.length randomBytes = 12%nat /\ List.length (GeneratePeerID randomBytes) = 20%nat.
Proof.
  intros randomBytes.
  assert (H : List.length randomBytes = 12%nat) by reflexivity.
  split; [exact H|]. apply (GeneratePeerID_format randomBytes H).
Defined.


Lemma handshake_roundtrip_witness :
  List.length (repeat 5 20) = 20%nat /\ List.length (repeat 6 20) = 20%nat /\
  PerformHandshake_reply (repeat 5 20) "10.0.0.2" 6881
    (handshake_bytes (repeat 5 20) (repeat 6 20) ++ [1; 2]) (mkHSState [] false)
  = (Ok (repeat 6 20), mkHSState [mkPeerEntry "10.0.0.2" 6881 (repeat 6 20) true None] false).
Proof.
  assert (H1 : List.length (repeat 5 20) = 20%nat) by reflexivity.
  assert (H2 : List.length (repeat 6 20) = 20%nat) by reflexivity.
  split; [exact H1|]. split; [exact H2|].
  rewrite (handshake_roundtrip (repeat 5 20) (repeat 5 20) (repeat 6 20) "10.0.0.2" 6881
             [1; 2] (mkHSState [] false) H1 H2).
  reflexivity.
Defined.

Lemma StartDownload_writer_invariants_witness :
  StartDownload_writer one_piece_info single_file (fun _ _ _ => false) [false]
    [mkPieceResult 0 (repeat 9 16); mkPieceResult 0 (repeat 9 16)] = (Ok tt, [false], [0%nat]) /\
  NoDup [0%nat].
Proof.
  assert (H : StartDownload_writer one_piece_info single_file (fun _ _ _ => false) [false]
    [mkPieceResult 0 (repeat 9 16); mkPieceResult 0 (repeat 9 16)] = (Ok tt, [false], [0%nat]))
    by reflexivity.
  split; [exact H|].
  apply (StartDownload_writer_invariants one_piece_info single_file (fun _ _ _ => false) [false]
           [mkPieceResult 0 (repeat 9 16); mkPieceResult 0 (repeat 9 16)] _ _ _ H).
Defined.


Lemma extractInfoBytes_bencoded_witness :
  let pre := bytes_of_string "d8:announce3:abc" in
  let kvs := [(bytes_of_string "length", BInt 12); (bytes_of_string "pieces", BStr (repeat 0 20))] in
  let post := bytes_of_string "e" in
  (forall k, (k < List.length pre)%nat ->
     firstn (List.length info_key) (skipn k (pre ++ info_key)) <> info_key) /\
  Z.of_nat (List.length (pre ++ info_key ++ bencode (BDict kvs) ++ post)) < 2 ^ 63 /\
  extractInfoBytes (pre ++ info_key ++ bencode (BDict kvs) ++ post) = FOk (bencode (BDict kvs)).
Proof.
  intros pre kvs post.
  assert (H1 : forall k, (k < List.length pre)%nat ->
     firstn (List.length info_key) (skipn k (pre ++ info_key)) <> info_key).
  { intros k Hk. subst pre. cbn in Hk.
    do 16 (destruct k as [|k]; [vm_compute; discriminate|]). lia. }
  assert (H2 : Z.of_nat (List.length (pre ++ info_key ++ bencode (BDict kvs) ++ post)) < 2 ^ 63)
    by (apply Z.ltb_lt; vm_compute; reflexivity).
  split; [exact H1|]. split; [exact H2|].
  apply (extractInfoBytes_bencoded (fun _ => []) pre post kvs H1 H2).
Defined.

Lemma Parse_InfoHash_no_info_witness :
  let data := bytes_of_string "d4:nameli1eee" in
  (forall k, firstn (List.length info_key) (skipn k data) <> info_key) /\
  Parse_InfoHash (fun _ => repeat 1 20) data = repeat 0 20.
Proof.
  intros data.
  assert (H : forall k, firstn (List.length info_key) (skipn k data) <> info_key).
  { intros k. subst data.
    do 14 (destruct k as [|k]; [vm_compute; discriminate|]).
    rewrite skipn_all2 by (cbn; lia). vm_compute. discriminate. }
  split; [exact H|]. apply (Parse_InfoHash_no_info (fun _ => repeat 1 20) data H).
Defined.
